(** * Quiz-league server: storage adapter, HTTP routes and live-match relay

    A shallow embedding of [server/routes.ts] together with the in-memory
    storage adapter ([LocalStorageAdapter]) and the table definitions of the
    shared schema.

    Conventions of the embedding.
    - A [Record<string, T>] table is a [gmap string T]; [Object.values] is
      the list of its values (its order is never observed by the routes
      modelled here, apart from the random shuffle of practice questions).
    - [Map<string, Set<WebSocket>>] is a [gmap string (gset nat)]: a socket
      object is identified by a natural number.
    - Integers and epoch-millisecond timestamps are [Z]; [decimal] columns
      keep their textual form.
    - What the process takes from its environment during one handler run
      (the clock, the identifiers drawn by [generateId], the order chosen by
      the random comparator) is gathered in an [Env] value.
    - Request and message fields have the types their handlers expect
      (identifiers and answers are strings), and a row has the fields its
      schema type declares.
    - A table is a plain object, so [table[id]] also answers for the names
      every object inherits ([prototype_keys]). The adapter is modelled on
      own properties; a statement that depends on a row being absent carries
      [own_key id], and [truthy_lookup] is the test the code really makes.
    - Numbers are doubles in the code. The arithmetic of the routes is
      modelled on [Z], which agrees with it on safe integers
      ([safe_integer]); statements about a balance or counter computed
      from a stored or requested number carry that hypothesis.
    - [send] of a socket is recorded as the list of payloads handed to it.
    - Each handler is one step of the transition system. The registration
      route awaits the password hash between its checks and its insert; its
      two halves are given separately in [Registration].
    - Columns that are only written with [new Date()] and never read by a
      route (createdAt, joinedAt, answeredAt, ...) are left out of the rows. *)

From stdpp Require Import base gmap sets list strings pretty sorting.
From Stdlib Require Import ZArith Lia.

Set Warnings "-clear-no-such-hyp".
Local Open Scope Z_scope.

(** ** Shared schema *)

(** [pgEnum("match_status", ...)] and the defaults of the [matches] table. *)
Definition matchStatusEnum : list string := ["waiting"; "live"; "completed"].
Definition matches_status_default : string := "waiting".
Definition matches_homeScore_default : Z := 0.
Definition matches_awayScore_default : Z := 0.

Module User.
Record t := mk {
    id : string; email : string; username : string;
    password : string; role : string }.
Inductive field :=
  | Username (s : string) | Email (s : string) | Password (s : string).
Definition assign (u : t) (f : field) : t :=
    match f with
    | Username s => mk (id u) (email u) s (password u) (role u)
    | Email s => mk (id u) s (username u) (password u) (role u)
    | Password s => mk (id u) (email u) (username u) s (role u)
    end.
  (** [{ ...user, ...data }] *)
Definition merge (u : t) (data : list field) : t := foldl assign u data.
End User.

Module Team.
Record t := mk {
    id : string; name : string; description : option string;
    createdBy : string; practiceTokens : Z }.
Inductive field := PracticeTokens (n : Z).
Definition assign (x : t) (f : field) : t :=
    match f with
    | PracticeTokens n => mk (id x) (name x) (description x) (createdBy x) n
    end.
Definition merge (x : t) (data : list field) : t := foldl assign x data.
End Team.

Module TeamMember.
Record t := mk { id : string; teamId : string; userId : string }.
End TeamMember.

Module Competition.
Record t := mk {
    id : string; name : string; description : option string;
    registrationFee : string; maxTeams : Z;
    startDate : Z; endDate : Z; registrationDeadline : Z;
    isActive : bool }.
End Competition.

Module CompetitionRegistration.
Record t := mk {
    id : string; competitionId : string; teamId : string;
    paidBy : string; paymentId : option string }.
End CompetitionRegistration.

Module Match.
Record t := mk {
    id : string; competitionId : string;
    homeTeamId : string; awayTeamId : string;
    round : Z; scheduledAt : Z; status : string;
    homeScore : Z; awayScore : Z;
    startedAt : option Z; completedAt : option Z }.
Inductive field :=
  | Status (s : string) | HomeScore (n : Z) | AwayScore (n : Z)
  | StartedAt (d : Z).
Definition assign (m : t) (f : field) : t :=
    match f with
    | Status s =>
        mk (id m) (competitionId m) (homeTeamId m) (awayTeamId m) (round m)
           (scheduledAt m) s (homeScore m) (awayScore m)
           (startedAt m) (completedAt m)
    | HomeScore n =>
        mk (id m) (competitionId m) (homeTeamId m) (awayTeamId m) (round m)
           (scheduledAt m) (status m) n (awayScore m)
           (startedAt m) (completedAt m)
    | AwayScore n =>
        mk (id m) (competitionId m) (homeTeamId m) (awayTeamId m) (round m)
           (scheduledAt m) (status m) (homeScore m) n
           (startedAt m) (completedAt m)
    | StartedAt d =>
        mk (id m) (competitionId m) (homeTeamId m) (awayTeamId m) (round m)
           (scheduledAt m) (status m) (homeScore m) (awayScore m)
           (Some d) (completedAt m)
    end.
Definition merge (m : t) (data : list field) : t := foldl assign m data.
End Match.

Module Question.
Record t := mk {
    id : string; competitionId : option string; questionText : string;
    optionA : string; optionB : string; optionC : string; optionD : string;
    correctAnswer : string; subject : string; difficulty : string;
    mode : string; timeLimit : Z }.
End Question.

Module PlayerAnswer.
Record t := mk {
    id : string; matchId : string; questionId : string;
    userId : string; teamId : string; answer : string;
    isCorrect : bool; timeTaken : option Z }.
End PlayerAnswer.

Module Standing.
Record t := mk {
    id : string; competitionId : string; teamId : string;
    played : Z; won : Z; drawn : Z; lost : Z;
    pointsFor : Z; pointsAgainst : Z; goalDifference : Z; leaguePoints : Z }.
End Standing.

Module TokenTransaction.
Record t := mk {
    id : string; teamId : string; userId : string;
    amount : Z; type : string; paymentId : option string }.
End TokenTransaction.

Module Payment.
Record t := mk {
    id : string; userId : string; teamId : option string;
    competitionId : option string; amount : string;
    type : string; status : string; reference : string;
    completedAt : option Z }.
End Payment.

Module PracticeSession.
Record t := mk {
    id : string; teamId : string; userId : string;
    type : string; status : string; score : Z; totalQuestions : Z;
    completedAt : option Z }.
Inductive field := Score (n : Z) | TotalQuestions (n : Z).
Definition assign (s : t) (f : field) : t :=
    match f with
    | Score n =>
        mk (id s) (teamId s) (userId s) (type s) (status s) n
           (totalQuestions s) (completedAt s)
    | TotalQuestions n =>
        mk (id s) (teamId s) (userId s) (type s) (status s) (score s) n
           (completedAt s)
    end.
Definition merge (s : t) (data : list field) : t := foldl assign s data.
End PracticeSession.

Module TeamInvitation.
Record t := mk {
    id : string; teamId : string; email : string;
    invitedBy : string; status : string; expiresAt : Z }.
End TeamInvitation.

(** ** Plain objects and numbers *)

(** The property names a plain object ([{}]) inherits from
    [Object.prototype]. *)
Definition prototype_keys : list string :=
  ["constructor"; "__proto__"; "hasOwnProperty"; "isPrototypeOf";
   "propertyIsEnumerable"; "toLocaleString"; "toString"; "valueOf";
   "__defineGetter__"; "__defineSetter__"; "__lookupGetter__";
   "__lookupSetter__"].

(** An identifier for which [table[id]] reads own properties only. *)
Definition own_key (id : string) : Prop := id ∉ prototype_keys.

(** Truthiness of [table[id]] on a plain-object table: a stored row is an
    object, and so is every inherited member. *)
Definition truthy_lookup {A} (table : gmap string A) (id : string) : bool :=
  bool_decide (is_Some (table !! id)) || bool_decide (id ∈ prototype_keys).

(** [Number.isSafeInteger]: the integers on which the double arithmetic of
    the code is exact. *)
Definition safe_integer (n : Z) : Prop := - 2 ^ 53 < n < 2 ^ 53.

(** ** The in-memory storage adapter *)

Record LocalData := mkData {
  users : gmap string User.t;
  teams : gmap string Team.t;
  teamMembers : gmap string TeamMember.t;
  competitions : gmap string Competition.t;
  competitionRegistrations : gmap string CompetitionRegistration.t;
  matches : gmap string Match.t;
  questions : gmap string Question.t;
  playerAnswers : gmap string PlayerAnswer.t;
  standings : gmap string Standing.t;
  tokenTransactions : gmap string TokenTransaction.t;
  payments : gmap string Payment.t;
  practiceSessions : gmap string PracticeSession.t;
  teamInvitations : gmap string TeamInvitation.t }.

Definition empty_data : LocalData :=
  mkData ∅ ∅ ∅ ∅ ∅ ∅ ∅ ∅ ∅ ∅ ∅ ∅ ∅.

(** [Object.values(table)] *)
Definition values {A} (table : gmap string A) : list A :=
  (map_to_list table).*2.

(** The methods of [LocalStorageAdapter]. The getters and updaters by id
    ([getTeam], [updateMatch], ...) read [this.data.table[id]]; they are
    given on the own properties of the table, which is what the code reads
    for every [own_key] id. *)
Module Storage.

Definition set_users v (d : LocalData) : LocalData :=
    mkData v (teams d) (teamMembers d) (competitions d)
      (competitionRegistrations d) (matches d) (questions d)
      (playerAnswers d) (standings d) (tokenTransactions d) (payments d)
      (practiceSessions d) (teamInvitations d).
Definition set_teams v (d : LocalData) : LocalData :=
    mkData (users d) v (teamMembers d) (competitions d)
      (competitionRegistrations d) (matches d) (questions d)
      (playerAnswers d) (standings d) (tokenTransactions d) (payments d)
      (practiceSessions d) (teamInvitations d).
Definition set_teamMembers v (d : LocalData) : LocalData :=
    mkData (users d) (teams d) v (competitions d)
      (competitionRegistrations d) (matches d) (questions d)
      (playerAnswers d) (standings d) (tokenTransactions d) (payments d)
      (practiceSessions d) (teamInvitations d).
Definition set_competitions v (d : LocalData) : LocalData :=
    mkData (users d) (teams d) (teamMembers d) v
      (competitionRegistrations d) (matches d) (questions d)
      (playerAnswers d) (standings d) (tokenTransactions d) (payments d)
      (practiceSessions d) (teamInvitations d).
Definition set_competitionRegistrations v (d : LocalData) : LocalData :=
    mkData (users d) (teams d) (teamMembers d) (competitions d)
      v (matches d) (questions d)
      (playerAnswers d) (standings d) (tokenTransactions d) (payments d)
      (practiceSessions d) (teamInvitations d).
Definition set_matches v (d : LocalData) : LocalData :=
    mkData (users d) (teams d) (teamMembers d) (competitions d)
      (competitionRegistrations d) v (questions d)
      (playerAnswers d) (standings d) (tokenTransactions d) (payments d)
      (practiceSessions d) (teamInvitations d).
Definition set_questions v (d : LocalData) : LocalData :=
    mkData (users d) (teams d) (teamMembers d) (competitions d)
      (competitionRegistrations d) (matches d) v
      (playerAnswers d) (standings d) (tokenTransactions d) (payments d)
      (practiceSessions d) (teamInvitations d).
Definition set_playerAnswers v (d : LocalData) : LocalData :=
    mkData (users d) (teams d) (teamMembers d) (competitions d)
      (competitionRegistrations d) (matches d) (questions d)
      v (standings d) (tokenTransactions d) (payments d)
      (practiceSessions d) (teamInvitations d).
Definition set_standings v (d : LocalData) : LocalData :=
    mkData (users d) (teams d) (teamMembers d) (competitions d)
      (competitionRegistrations d) (matches d) (questions d)
      (playerAnswers d) v (tokenTransactions d) (payments d)
      (practiceSessions d) (teamInvitations d).
Definition set_tokenTransactions v (d : LocalData) : LocalData :=
    mkData (users d) (teams d) (teamMembers d) (competitions d)
      (competitionRegistrations d) (matches d) (questions d)
      (playerAnswers d) (standings d) v (payments d)
      (practiceSessions d) (teamInvitations d).
Definition set_payments v (d : LocalData) : LocalData :=
    mkData (users d) (teams d) (teamMembers d) (competitions d)
      (competitionRegistrations d) (matches d) (questions d)
      (playerAnswers d) (standings d) (tokenTransactions d) v
      (practiceSessions d) (teamInvitations d).
Definition set_practiceSessions v (d : LocalData) : LocalData :=
    mkData (users d) (teams d) (teamMembers d) (competitions d)
      (competitionRegistrations d) (matches d) (questions d)
      (playerAnswers d) (standings d) (tokenTransactions d) (payments d)
      v (teamInvitations d).
Definition set_teamInvitations v (d : LocalData) : LocalData :=
    mkData (users d) (teams d) (teamMembers d) (competitions d)
      (competitionRegistrations d) (matches d) (questions d)
      (playerAnswers d) (standings d) (tokenTransactions d) (payments d)
      (practiceSessions d) v.

  (** *** Users *)
Definition getUser (id : string) (d : LocalData) : option User.t :=
    users d !! id.
Definition getUserByEmail (email : string) (d : LocalData) : option User.t :=
    head (filter (λ u, User.email u = email) (values (users d))).
Definition getUserByUsername (name : string) (d : LocalData)
    : option User.t :=
    head (filter (λ u, User.username u = name) (values (users d))).
Definition createUser (id : string) (ins : User.t) (d : LocalData)
    : User.t * LocalData :=
    let user := User.mk id (User.email ins) (User.username ins)
                  (User.password ins) (User.role ins) in
    (user, set_users (<[id := user]> (users d)) d).
Definition updateUser (id : string) (data : list User.field) (d : LocalData)
    : option User.t * LocalData :=
    match users d !! id with
    | None => (None, d)
    | Some user =>
        let updated := User.merge user data in
        (Some updated, set_users (<[id := updated]> (users d)) d)
    end.

  (** *** Teams *)
Definition getTeam (id : string) (d : LocalData) : option Team.t :=
    teams d !! id.
Definition createTeam (id : string) (ins : Team.t) (d : LocalData)
    : Team.t * LocalData :=
    let newTeam := Team.mk id (Team.name ins) (Team.description ins)
                     (Team.createdBy ins) 0 in
    (newTeam, set_teams (<[id := newTeam]> (teams d)) d).
Definition updateTeam (id : string) (data : list Team.field) (d : LocalData)
    : option Team.t * LocalData :=
    match teams d !! id with
    | None => (None, d)
    | Some team =>
        let updated := Team.merge team data in
        (Some updated, set_teams (<[id := updated]> (teams d)) d)
    end.

  (** *** Team members *)
Definition addTeamMember (id teamId userId : string) (d : LocalData)
    : TeamMember.t * LocalData :=
    let newMember := TeamMember.mk id teamId userId in
    (newMember, set_teamMembers (<[id := newMember]> (teamMembers d)) d).
Definition getTeamMembers (teamId : string) (d : LocalData)
    : list TeamMember.t :=
    filter (λ m, TeamMember.teamId m = teamId) (values (teamMembers d)).
Definition isTeamMember (teamId userId : string) (d : LocalData) : bool :=
    existsb (λ m, bool_decide (TeamMember.teamId m = teamId)
                  && bool_decide (TeamMember.userId m = userId))
            (values (teamMembers d)).

  (** *** Competitions and registrations *)
Definition getCompetition (id : string) (d : LocalData)
    : option Competition.t :=
    competitions d !! id.
Definition createCompetition (id : string) (ins : Competition.t)
      (d : LocalData) : Competition.t * LocalData :=
    let newComp :=
      Competition.mk id (Competition.name ins) (Competition.description ins)
        (Competition.registrationFee ins) (Competition.maxTeams ins)
        (Competition.startDate ins) (Competition.endDate ins)
        (Competition.registrationDeadline ins) true in
    (newComp, set_competitions (<[id := newComp]> (competitions d)) d).
Definition registerTeam (id competitionId teamId paidBy : string)
      (paymentId : option string) (d : LocalData)
    : CompetitionRegistration.t * LocalData :=
    let newReg :=
      CompetitionRegistration.mk id competitionId teamId paidBy paymentId in
    (newReg,
     set_competitionRegistrations
       (<[id := newReg]> (competitionRegistrations d)) d).
Definition getRegisteredTeams (competitionId : string) (d : LocalData)
    : list CompetitionRegistration.t :=
    filter (λ r, CompetitionRegistration.competitionId r = competitionId)
           (values (competitionRegistrations d)).
Definition isTeamRegistered (competitionId teamId : string) (d : LocalData)
    : bool :=
    existsb
      (λ r, bool_decide (CompetitionRegistration.competitionId r
                         = competitionId)
            && bool_decide (CompetitionRegistration.teamId r = teamId))
      (values (competitionRegistrations d)).

  (** *** Matches *)
Definition getMatch (id : string) (d : LocalData) : option Match.t :=
    matches d !! id.
Definition updateMatch (id : string) (data : list Match.field)
      (d : LocalData) : option Match.t * LocalData :=
    match matches d !! id with
    | None => (None, d)
    | Some m =>
        let updated := Match.merge m data in
        (Some updated, set_matches (<[id := updated]> (matches d)) d)
    end.

  (** *** Questions *)
Definition getQuestion (id : string) (d : LocalData) : option Question.t :=
    questions d !! id.
  (** [filtered.sort(() => Math.random() - 0.5).slice(0, limit)]: the random
      comparator is the environment's [shuffle]. *)
Definition getQuestionsByMode
      (shuffle : list Question.t → list Question.t)
      (mode : string) (limit : nat) (d : LocalData) : list Question.t :=
    take limit
      (shuffle (filter (λ q, Question.mode q = mode) (values (questions d)))).
Definition createQuestion (id : string) (ins : Question.t) (d : LocalData)
    : Question.t * LocalData :=
    let newQuestion :=
      Question.mk id (Question.competitionId ins) (Question.questionText ins)
        (Question.optionA ins) (Question.optionB ins) (Question.optionC ins)
        (Question.optionD ins) (Question.correctAnswer ins)
        (Question.subject ins) (Question.difficulty ins) (Question.mode ins)
        (Question.timeLimit ins) in
    (newQuestion, set_questions (<[id := newQuestion]> (questions d)) d).

  (** *** Player answers *)
Definition submitAnswer (id : string) (ins : PlayerAnswer.t) (d : LocalData)
    : PlayerAnswer.t * LocalData :=
    let newAnswer :=
      PlayerAnswer.mk id (PlayerAnswer.matchId ins)
        (PlayerAnswer.questionId ins) (PlayerAnswer.userId ins)
        (PlayerAnswer.teamId ins) (PlayerAnswer.answer ins)
        (PlayerAnswer.isCorrect ins) (PlayerAnswer.timeTaken ins) in
    (newAnswer, set_playerAnswers (<[id := newAnswer]> (playerAnswers d)) d).
Definition getAnswersByMatch (matchId : string) (d : LocalData)
    : list PlayerAnswer.t :=
    filter (λ a, PlayerAnswer.matchId a = matchId) (values (playerAnswers d)).
  (** The loop of [getPlayerScoresByMatch]:
      [if (!scores[u]) scores[u] = 0; if (isCorrect) scores[u]++]. *)
Definition score_answer (scores : gmap string Z) (a : PlayerAnswer.t)
    : gmap string Z :=
    let u := PlayerAnswer.userId a in
    let scores1 :=
      match scores !! u with
      | None => <[u := 0]> scores
      | Some n => if decide (n = 0) then <[u := 0]> scores else scores
      end in
    if PlayerAnswer.isCorrect a
    then <[u := default 0 (scores1 !! u) + 1]> scores1
    else scores1.
Definition getPlayerScoresByMatch (matchId : string) (d : LocalData)
    : gmap string Z :=
    foldl score_answer ∅ (getAnswersByMatch matchId d).

  (** *** Standings *)
Definition createStanding (id : string) (ins : Standing.t) (d : LocalData)
    : Standing.t * LocalData :=
    let newStanding :=
      Standing.mk id (Standing.competitionId ins) (Standing.teamId ins)
        (Standing.played ins) (Standing.won ins) (Standing.drawn ins)
        (Standing.lost ins) (Standing.pointsFor ins)
        (Standing.pointsAgainst ins) (Standing.goalDifference ins)
        (Standing.leaguePoints ins) in
    (newStanding, set_standings (<[id := newStanding]> (standings d)) d).

  (** *** Token transactions, payments, practice sessions, invitations *)
Definition createTokenTransaction (id : string) (ins : TokenTransaction.t)
      (d : LocalData) : TokenTransaction.t * LocalData :=
    let newTransaction :=
      TokenTransaction.mk id (TokenTransaction.teamId ins)
        (TokenTransaction.userId ins) (TokenTransaction.amount ins)
        (TokenTransaction.type ins) (TokenTransaction.paymentId ins) in
    (newTransaction,
     set_tokenTransactions (<[id := newTransaction]> (tokenTransactions d)) d).
Definition createPayment (id : string) (ins : Payment.t) (d : LocalData)
    : Payment.t * LocalData :=
    let newPayment :=
      Payment.mk id (Payment.userId ins) (Payment.teamId ins)
        (Payment.competitionId ins) (Payment.amount ins) (Payment.type ins)
        (Payment.status ins) (Payment.reference ins) None in
    (newPayment, set_payments (<[id := newPayment]> (payments d)) d).
Definition createPracticeSession (id teamId userId type status : string)
      (d : LocalData) : PracticeSession.t * LocalData :=
    let newSession :=
      PracticeSession.mk id teamId userId type status 0 0 None in
    (newSession,
     set_practiceSessions (<[id := newSession]> (practiceSessions d)) d).
Definition getPracticeSession (id : string) (d : LocalData)
    : option PracticeSession.t :=
    practiceSessions d !! id.
Definition updatePracticeSession (id : string)
      (data : list PracticeSession.field) (d : LocalData)
    : option PracticeSession.t * LocalData :=
    match practiceSessions d !! id with
    | None => (None, d)
    | Some s =>
        let updated := PracticeSession.merge s data in
        (Some updated,
         set_practiceSessions (<[id := updated]> (practiceSessions d)) d)
    end.
Definition createInvitation (id teamId email invitedBy : string)
      (expiresAt : Z) (d : LocalData) : TeamInvitation.t * LocalData :=
    let newInvitation :=
      TeamInvitation.mk id teamId email invitedBy "pending" expiresAt in
    (newInvitation,
     set_teamInvitations (<[id := newInvitation]> (teamInvitations d)) d).

End Storage.

(** ** Server state *)

(** [readyState] of a [ws] socket. A socket object that the server has not
    yet been handed by a ["connection"] event is shown as [CONNECTING]. *)
Inductive ReadyState := CONNECTING | OPEN | CLOSING | CLOSED.

Global Instance ReadyState_eq_dec : EqDecision ReadyState.
Proof. solve_decision. Defined.

(** An entry of [matchStates]. *)
Module MatchState.
Record t := mk {
    status : string; currentQuestion : Z;
    homeScore : Z; awayScore : Z; timeRemaining : Z }.
End MatchState.

(** Messages the server serialises with [JSON.stringify]. *)
Inductive ServerMsg :=
| match_state (state : MatchState.t)
    (* { type: "match_state", ...state } *)
| match_started (status : string) (currentQuestion : Z)
    (* { type: "match_state", status, currentQuestion } *)
| answer_result (isCorrect : bool)
| score_update (playerScores : gmap string Z) (homeScore awayScore : Z).

(** Messages a client may send; anything else, unparsable data included,
    is [other_message]. *)
Inductive ClientMsg :=
| join_match (matchId userId : string)
| submit_answer (matchId userId questionId answer teamId : string)
    (timeTaken : option Z)
| other_message.

Record Server := mkServer {
  storage : LocalData;
  matchRooms : gmap string (gset nat);
  matchStates : gmap string MatchState.t;
  readyState : nat → ReadyState;
  (** the payloads handed to [send] of each socket, oldest first *)
  sent : nat → list ServerMsg }.

(** The process at start-up, with the tables as the adapter then holds
    them: no room, no match state, no socket connected. *)
Definition start (d : LocalData) : Server :=
  mkServer d ∅ ∅ (λ _, CONNECTING) (λ _, []).

(** A fresh process: the adapter starts with empty tables. *)
Definition initial : Server := start empty_data.

Definition set_storage (d : LocalData) (s : Server) : Server :=
  mkServer d (matchRooms s) (matchStates s) (readyState s) (sent s).
Definition set_matchRooms v (s : Server) : Server :=
  mkServer (storage s) v (matchStates s) (readyState s) (sent s).
Definition set_matchStates v (s : Server) : Server :=
  mkServer (storage s) (matchRooms s) v (readyState s) (sent s).
Definition set_readyState (ws : nat) (r : ReadyState) (s : Server) : Server :=
  mkServer (storage s) (matchRooms s) (matchStates s)
    (λ c, if decide (c = ws) then r else readyState s c) (sent s).

(** What one handler run takes from outside the process. *)
Record Env := mkEnv {
  now : Z;                                   (* Date.now(), new Date() *)
  id1 : string; id2 : string; id3 : string;  (* successive generateId() *)
  shuffle : list Question.t → list Question.t;
  bcrypt_hash : string → string;
  bcrypt_compare : string → string → bool;
  (* d.setDate(d.getDate() + 7): seven days later on the local calendar *)
  plus_seven_days : Z → Z }.

(** ** WebSocket relay *)

(** [client.send(data)] *)
Definition send (client : nat) (data : ServerMsg) (s : Server) : Server :=
  mkServer (storage s) (matchRooms s) (matchStates s) (readyState s)
    (λ c, if decide (c = client) then sent s c ++ [data] else sent s c).

Definition broadcastToMatch (matchId : string) (message : ServerMsg)
    (s : Server) : Server :=
  match matchRooms s !! matchId with
  | Some clients =>
      foldl (λ acc client,
               if decide (readyState acc client = OPEN)
               then send client message acc else acc)
            s (elements clients)
  | None => s
  end.

Definition default_match_state : MatchState.t :=
  MatchState.mk "waiting" 0 0 0 30.

Definition on_join_match (ws : nat) (matchId : string) (s : Server) : Server :=
  let rooms1 :=
    match matchRooms s !! matchId with
    | Some _ => matchRooms s
    | None => <[matchId := ∅]> (matchRooms s)
    end in
  let rooms2 :=
    <[matchId := default ∅ (rooms1 !! matchId) ∪ {[ws]}]> rooms1 in
  let state := default default_match_state (matchStates s !! matchId) in
  send ws (match_state state) (set_matchRooms rooms2 s).

(** The scoring loop over the answers of a match. *)
Definition tally (home away : string) (acc : Z * Z) (ans : PlayerAnswer.t)
  : Z * Z :=
  if PlayerAnswer.isCorrect ans then
    if decide (PlayerAnswer.teamId ans = home) then (acc.1 + 1, acc.2)
    else if decide (PlayerAnswer.teamId ans = away) then (acc.1, acc.2 + 1)
    else acc
  else acc.

Definition on_submit_answer (e : Env) (ws : nat)
    (matchId userId questionId answer teamId : string)
    (timeTaken : option Z) (s : Server) : Server :=
  match Storage.getQuestion questionId (storage s),
        Storage.getMatch matchId (storage s) with
  | Some question, Some m =>
      let isCorrect := bool_decide (answer = Question.correctAnswer question) in
      let d1 :=
        (Storage.submitAnswer (id1 e)
           (PlayerAnswer.mk "" matchId questionId userId teamId answer
              isCorrect timeTaken)
           (storage s)).2 in
      let s1 := send ws (answer_result isCorrect) (set_storage d1 s) in
      let answers := Storage.getAnswersByMatch matchId d1 in
      let '(homeScore, awayScore) :=
        foldl (tally (Match.homeTeamId m) (Match.awayTeamId m)) (0, 0)
              answers in
      let d2 :=
        (Storage.updateMatch matchId
           [Match.HomeScore homeScore; Match.AwayScore awayScore] d1).2 in
      let states2 :=
        match matchStates s1 !! matchId with
        | Some state =>
            <[matchId :=
                MatchState.mk (MatchState.status state)
                  (MatchState.currentQuestion state) homeScore awayScore
                  (MatchState.timeRemaining state)]> (matchStates s1)
        | None => matchStates s1
        end in
      let playerScores := Storage.getPlayerScoresByMatch matchId d2 in
      broadcastToMatch matchId
        (score_update playerScores homeScore awayScore)
        (set_matchStates states2 (set_storage d2 s1))
  | _, _ => s
  end.

Definition on_message (e : Env) (ws : nat) (message : ClientMsg) (s : Server)
  : Server :=
  match message with
  | join_match matchId userId => on_join_match ws matchId s
  | submit_answer matchId userId questionId answer teamId timeTaken =>
      on_submit_answer e ws matchId userId questionId answer teamId
        timeTaken s
  | other_message => s
  end.

(** The ["close"] listener: every room loses the socket, and a room left
    empty is deleted. *)
Definition on_close (ws : nat) (s : Server) : Server :=
  set_matchRooms
    (omap (λ clients : gset nat,
             let clients' := clients ∖ {[ws]} in
             if decide (size clients' = 0%nat) then None else Some clients')
          (matchRooms s))
    s.

(** ** HTTP routes *)

Inductive Body :=
| Message (message : string)
| Success
| UserBody (user : option User.t)
| TeamBody (team : Team.t)
| InvitationBody (invitation : TeamInvitation.t)
| RegistrationBody (registration : CompetitionRegistration.t)
| PracticeBody (session : PracticeSession.t) (questions : list Question.t)
| AnswerBody (isCorrect : bool) (correctAnswer : string)
| PaymentBody (payment : Payment.t)
| CompetitionBody (competition : Competition.t)
| QuestionBody (question : Question.t).

Record Response := mkResponse { code : Z; body : Body }.

(** [res.json(b)] and [res.status(c).json({ message })] *)
Definition json (b : Body) : Response := mkResponse 200 b.
Definition fail (c : Z) (message : string) : Response :=
  mkResponse c (Message message).

(** [requireAuth]: the user id of the session, when it is truthy. *)
Definition requireAuth (session_userId : option string) : option string :=
  match session_userId with
  | Some u => if decide (u = "") then None else Some u
  | None => None
  end.

(** [requireAdmin]: the response that stops the request, if any. *)
Definition requireAdmin (session_userId : option string) (d : LocalData)
  : option Response :=
  match requireAuth session_userId with
  | None => Some (fail 401 "Unauthorized")
  | Some uid =>
      match Storage.getUser uid d with
      | Some user =>
          if decide (User.role user = "admin") then None
          else Some (fail 403 "Forbidden")
      | None => Some (fail 403 "Forbidden")
      end
  end.

(** A request body checked by a zod schema is either the first error
    message or the parsed value. *)
Definition Parsed (A : Type) : Type := string + A.

Module Routes.

  (** POST /api/auth/register *)
Definition auth_register (e : Env) (body : Parsed User.t) (d : LocalData)
    : Response * LocalData :=
    match body with
    | inl message => (fail 400 message, d)
    | inr data =>
        match Storage.getUserByEmail (User.email data) d with
        | Some _ => (fail 400 "Email already registered", d)
        | None =>
            match Storage.getUserByUsername (User.username data) d with
            | Some _ => (fail 400 "Username already taken", d)
            | None =>
                let '(user, d') :=
                  Storage.createUser (id1 e)
                    (User.mk "" (User.email data) (User.username data)
                       (bcrypt_hash e (User.password data)) (User.role data))
                    d in
                (json (UserBody (Some user)), d')
            end
        end
    end.

  (** PATCH /api/auth/profile *)
Definition auth_profile (session : option string) (username email : string)
      (d : LocalData) : Response * LocalData :=
    match requireAuth session with
    | None => (fail 401 "Unauthorized", d)
    | Some uid =>
        let '(user, d') :=
          Storage.updateUser uid [User.Username username; User.Email email] d
        in (json (UserBody user), d')
    end.

  (** POST /api/auth/change-password *)
Definition auth_change_password (e : Env) (session : option string)
      (currentPassword newPassword : string) (d : LocalData)
    : Response * LocalData :=
    match requireAuth session with
    | None => (fail 401 "Unauthorized", d)
    | Some uid =>
        match Storage.getUser uid d with
        | None => (fail 404 "User not found", d)
        | Some user =>
            if bcrypt_compare e currentPassword (User.password user) then
              let d' :=
                (Storage.updateUser (User.id user)
                   [User.Password (bcrypt_hash e newPassword)] d).2 in
              (json Success, d')
            else (fail 401 "Current password is incorrect", d)
        end
    end.

  (** POST /api/teams *)
Definition teams_create (e : Env) (session : option string)
      (body : Parsed Team.t) (d : LocalData) : Response * LocalData :=
    match requireAuth session with
    | None => (fail 401 "Unauthorized", d)
    | Some uid =>
        match body with
        | inl message => (fail 400 message, d)
        | inr data =>
            let '(team, d1) :=
              Storage.createTeam (id1 e)
                (Team.mk "" (Team.name data) (Team.description data) uid 0) d in
            let d2 := (Storage.addTeamMember (id2 e) (Team.id team) uid d1).2 in
            (json (TeamBody team), d2)
        end
    end.

  (** POST /api/teams/:id/invite *)
Definition teams_invite (e : Env) (session : option string)
      (teamId email : string) (d : LocalData) : Response * LocalData :=
    match requireAuth session with
    | None => (fail 401 "Unauthorized", d)
    | Some uid =>
        let members := Storage.getTeamMembers teamId d in
        if decide (5 <= Z.of_nat (length members)) then
          (fail 400 "Team is already full", d)
        else
          let expiresAt := plus_seven_days e (now e) in
          let '(invitation, d') :=
            Storage.createInvitation (id1 e) teamId email uid expiresAt d in
          (json (InvitationBody invitation), d')
    end.

  (** POST /api/competitions/:id/register *)
Definition competition_register (e : Env) (session : option string)
      (competitionId teamId : string) (d : LocalData) : Response * LocalData :=
    match requireAuth session with
    | None => (fail 401 "Unauthorized", d)
    | Some uid =>
        match Storage.getCompetition competitionId d with
        | None => (fail 404 "Competition not found", d)
        | Some competition =>
            if decide (Competition.registrationDeadline competition < now e)
            then (fail 400 "Registration deadline has passed", d)
            else if Storage.isTeamRegistered competitionId teamId d
            then (fail 400 "Team already registered", d)
            else
              let registrations := Storage.getRegisteredTeams competitionId d in
              if decide (Competition.maxTeams competition
                         <= Z.of_nat (length registrations))
              then (fail 400 "Competition is full", d)
              else if negb (Storage.isTeamMember teamId uid d)
              then (fail 403 "You are not a member of this team", d)
              else
                let '(payment, d1) :=
                  Storage.createPayment (id1 e)
                    (Payment.mk "" uid (Some teamId) (Some competitionId)
                       (Competition.registrationFee competition)
                       "registration" "completed"
                       ("REG-" +:+ pretty (now e)) None)
                    d in
                let '(registration, d2) :=
                  Storage.registerTeam (id2 e) competitionId teamId uid
                    (Some (Payment.id payment)) d1 in
                let d3 :=
                  (Storage.createStanding (id3 e)
                     (Standing.mk "" competitionId teamId 0 0 0 0 0 0 0 0)
                     d2).2 in
                (json (RegistrationBody registration), d3)
        end
    end.

  (** POST /api/practice/start *)
Definition practice_start (e : Env) (session : option string)
      (teamId type : string) (d : LocalData) : Response * LocalData :=
    match requireAuth session with
    | None => (fail 401 "Unauthorized", d)
    | Some uid =>
        match Storage.getTeam teamId d with
        | None => (fail 400 "Insufficient tokens", d)
        | Some team =>
            if decide (Team.practiceTokens team < 1)
            then (fail 400 "Insufficient tokens", d)
            else
              let d1 :=
                (Storage.updateTeam teamId
                   [Team.PracticeTokens (Team.practiceTokens team - 1)] d).2 in
              let d2 :=
                (Storage.createTokenTransaction (id1 e)
                   (TokenTransaction.mk "" teamId uid (-1) "practice" None)
                   d1).2 in
              let questions :=
                Storage.getQuestionsByMode (shuffle e) "practice" 10 d2 in
              let '(session, d3) :=
                Storage.createPracticeSession (id2 e) teamId uid type "active"
                  d2 in
              (json (PracticeBody session questions), d3)
        end
    end.

  (** POST /api/practice/answer *)
Definition practice_answer (session : option string)
      (sessionId questionId answer : string) (d : LocalData)
    : Response * LocalData :=
    match requireAuth session with
    | None => (fail 401 "Unauthorized", d)
    | Some uid =>
        match Storage.getQuestion questionId d with
        | None => (fail 404 "Question not found", d)
        | Some question =>
            let isCorrect :=
              bool_decide (answer = Question.correctAnswer question) in
            let d' :=
              match Storage.getPracticeSession sessionId d with
              | Some s =>
                  (Storage.updatePracticeSession sessionId
                     [PracticeSession.Score
                        (PracticeSession.score s + (if isCorrect then 1 else 0));
                      PracticeSession.TotalQuestions
                        (PracticeSession.totalQuestions s + 1)] d).2
              | None => d
              end in
            (json (AnswerBody isCorrect (Question.correctAnswer question)), d')
        end
    end.

  (** POST /api/payments/tokens *)
Definition payments_tokens (e : Env) (session : option string)
      (teamId : string) (amount : Z) (d : LocalData) : Response * LocalData :=
    match requireAuth session with
    | None => (fail 401 "Unauthorized", d)
    | Some uid =>
        let totalPrice := amount * 2 in
        let '(payment, d1) :=
          Storage.createPayment (id1 e)
            (Payment.mk "" uid (Some teamId) None (pretty totalPrice)
               "tokens" "completed" ("TOK-" +:+ pretty (now e)) None) d in
        let d3 :=
          match Storage.getTeam teamId d1 with
          | Some team =>
              let d2 :=
                (Storage.updateTeam teamId
                   [Team.PracticeTokens (Team.practiceTokens team + amount)]
                   d1).2 in
              (Storage.createTokenTransaction (id2 e)
                 (TokenTransaction.mk "" teamId uid amount "purchase"
                    (Some (Payment.id payment))) d2).2
          | None => d1
          end in
        (json (PaymentBody payment), d3)
    end.

  (** POST /api/admin/competitions *)
Definition admin_competitions (e : Env) (session : option string)
      (body : Parsed Competition.t) (d : LocalData) : Response * LocalData :=
    match requireAdmin session d with
    | Some stop => (stop, d)
    | None =>
        match body with
        | inl message => (fail 400 message, d)
        | inr data =>
            let '(competition, d') :=
              Storage.createCompetition (id1 e) data d in
            (json (CompetitionBody competition), d')
        end
    end.

  (** POST /api/admin/questions *)
Definition admin_questions (e : Env) (session : option string)
      (body : Parsed Question.t) (d : LocalData) : Response * LocalData :=
    match requireAdmin session d with
    | Some stop => (stop, d)
    | None =>
        match body with
        | inl message => (fail 400 message, d)
        | inr data =>
            let '(question, d') := Storage.createQuestion (id1 e) data d in
            (json (QuestionBody question), d')
        end
    end.

  (** POST /api/admin/matches/:id/start *)
Definition admin_match_start (e : Env) (session : option string)
      (matchId : string) (s : Server) : Response * Server :=
    match requireAdmin session (storage s) with
    | Some stop => (stop, s)
    | None =>
        let d' :=
          (Storage.updateMatch matchId
             [Match.Status "live"; Match.StartedAt (now e)] (storage s)).2 in
        let states' :=
          <[matchId := MatchState.mk "live" 0 0 0 30]> (matchStates s) in
        (json Success,
         broadcastToMatch matchId (match_started "live" 0)
           (set_matchStates states' (set_storage d' s)))
    end.

End Routes.

(** ** The server as a transition system *)

(** The requests that change server state. Read-only routes (GET) and the
    routes that only touch the session store (login, logout) are not listed;
    the session user id that [express-session] resolves for a request is
    part of the request. *)
Inductive Request :=
| POST_auth_register (body : Parsed User.t)
| PATCH_auth_profile (session : option string) (username email : string)
| POST_auth_change_password (session : option string)
    (currentPassword newPassword : string)
| POST_teams (session : option string) (body : Parsed Team.t)
| POST_teams_invite (session : option string) (teamId email : string)
| POST_competitions_register (session : option string)
    (competitionId teamId : string)
| POST_practice_start (session : option string) (teamId type : string)
| POST_practice_answer (session : option string)
    (sessionId questionId answer : string)
| POST_payments_tokens (session : option string) (teamId : string) (amount : Z)
| POST_admin_competitions (session : option string)
    (body : Parsed Competition.t)
| POST_admin_questions (session : option string) (body : Parsed Question.t)
| POST_admin_matches_start (session : option string) (matchId : string).

Definition on_storage (r : Response * LocalData) (s : Server)
  : Response * Server :=
  (r.1, set_storage r.2 s).

Definition serve (e : Env) (req : Request) (s : Server) : Response * Server :=
  let d := storage s in
  match req with
  | POST_auth_register body => on_storage (Routes.auth_register e body d) s
  | PATCH_auth_profile session username email =>
      on_storage (Routes.auth_profile session username email d) s
  | POST_auth_change_password session cur new =>
      on_storage (Routes.auth_change_password e session cur new d) s
  | POST_teams session body => on_storage (Routes.teams_create e session body d) s
  | POST_teams_invite session teamId email =>
      on_storage (Routes.teams_invite e session teamId email d) s
  | POST_competitions_register session competitionId teamId =>
      on_storage
        (Routes.competition_register e session competitionId teamId d) s
  | POST_practice_start session teamId type =>
      on_storage (Routes.practice_start e session teamId type d) s
  | POST_practice_answer session sessionId questionId answer =>
      on_storage
        (Routes.practice_answer session sessionId questionId answer d) s
  | POST_payments_tokens session teamId amount =>
      on_storage (Routes.payments_tokens e session teamId amount d) s
  | POST_admin_competitions session body =>
      on_storage (Routes.admin_competitions e session body d) s
  | POST_admin_questions session body =>
      on_storage (Routes.admin_questions e session body d) s
  | POST_admin_matches_start session matchId =>
      Routes.admin_match_start e session matchId s
  end.

Inductive Event :=
| connection (ws : nat)                    (* wss.on("connection") *)
| message (ws : nat) (m : ClientMsg)       (* ws.on("message") *)
| closing (ws : nat)                       (* close handshake under way *)
| close (ws : nat)                         (* ws.on("close") *)
| http (req : Request).

Definition handle (e : Env) (ev : Event) (s : Server) : Server :=
  match ev with
  | connection ws => set_readyState ws OPEN s
  | message ws m => on_message e ws m s
  | closing ws => set_readyState ws CLOSING s
  | close ws => on_close ws (set_readyState ws CLOSED s)
  | http req => (serve e req s).2
  end.

(** When the [ws] library can deliver an event: a socket connects once,
    delivers messages only until it is closed, and closes once. *)
Definition enabled (ev : Event) (s : Server) : Prop :=
  match ev with
  | connection ws => readyState s ws = CONNECTING
  | message ws _ => readyState s ws = OPEN ∨ readyState s ws = CLOSING
  | closing ws => readyState s ws = OPEN
  | close ws => readyState s ws = OPEN ∨ readyState s ws = CLOSING
  | http _ => True
  end.

(** The states a run reaches from start-up with tables [d0]. *)
Inductive reachable (d0 : LocalData) : Server → Prop :=
| reachable_start : reachable d0 (start d0)
| reachable_step e ev s :
    reachable d0 s → enabled ev s → reachable d0 (handle e ev s).

(** ** Vocabulary of the properties *)

(** The connections a broadcast to [matchId] is meant for: the members of
    that room whose [readyState] is [OPEN]. *)
Definition recipient (matchId : string) (s : Server) (c : nat) : bool :=
  match matchRooms s !! matchId with
  | Some clients =>
      bool_decide (c ∈ clients) && bool_decide (readyState s c = OPEN)
  | None => false
  end.

(** The number of recorded answers of a match that are correct and belong
    to a team. *)
Definition correct_answers_of (matchId teamId : string) (d : LocalData) : nat :=
  length
    (filter (λ a, PlayerAnswer.matchId a = matchId
                  ∧ PlayerAnswer.isCorrect a = true
                  ∧ PlayerAnswer.teamId a = teamId)
            (values (playerAnswers d))).

(** The same count, leaving out the answers of team [other]. *)
Definition correct_answers_of_but (matchId teamId other : string)
    (d : LocalData) : nat :=
  length
    (filter (λ a, PlayerAnswer.matchId a = matchId
                  ∧ PlayerAnswer.isCorrect a = true
                  ∧ PlayerAnswer.teamId a = teamId
                  ∧ PlayerAnswer.teamId a ≠ other)
            (values (playerAnswers d))).

(** A registration row of the team for the competition exists. *)
Definition registered (competitionId teamId : string) (d : LocalData) : Prop :=
  ∃ k r, competitionRegistrations d !! k = Some r
         ∧ CompetitionRegistration.competitionId r = competitionId
         ∧ CompetitionRegistration.teamId r = teamId.

(** A membership row of the user in the team exists. *)
Definition member (teamId userId : string) (d : LocalData) : Prop :=
  ∃ k m, teamMembers d !! k = Some m
         ∧ TeamMember.teamId m = teamId ∧ TeamMember.userId m = userId.

(** The five checks of POST /api/competitions/:id/register, for the user of
    the session: the competition exists, its deadline has not passed, the
    team is not registered for it yet, the registrations of the competition
    are fewer than [maxTeams], and the user is a member of the team. *)
Definition may_register (e : Env) (session : option string)
    (competitionId teamId : string) (d : LocalData) : Prop :=
  ∃ uid competition,
    requireAuth session = Some uid
    ∧ competitions d !! competitionId = Some competition
    ∧ now e <= Competition.registrationDeadline competition
    ∧ ¬ registered competitionId teamId d
    ∧ Z.of_nat (length (Storage.getRegisteredTeams competitionId d))
      < Competition.maxTeams competition
    ∧ member teamId uid d.

(** Every counter of a standings row is zero. *)
Definition zero_counters (r : Standing.t) : Prop :=
  Standing.played r = 0 ∧ Standing.won r = 0 ∧ Standing.drawn r = 0
  ∧ Standing.lost r = 0 ∧ Standing.pointsFor r = 0
  ∧ Standing.pointsAgainst r = 0 ∧ Standing.goalDifference r = 0
  ∧ Standing.leaguePoints r = 0.

(** A status is one of the values of [matchStatusEnum]. *)
Definition valid_status (status : string) : Prop := status ∈ matchStatusEnum.


(** ** Sample data *)

(** *** A small league used in the examples below *)
Module Sample.

Definition env : Env :=
  mkEnv 1000 "id-a" "id-b" "id-c" (λ l, l) (λ p, p) (λ _ _, true)
    (λ t, t + 7 * 86400000).

Definition question : Question.t :=
  Question.mk "q1" None "2 + 2 = ?" "3" "4" "5" "6" "B" "Math" "easy"
    "competition" 30.

(** A match between two teams, and one whose two sides are the same team. *)
Definition fixture : Match.t :=
  Match.mk "m1" "c1" "t1" "t2" 1 500 "live" 0 0 None None.
Definition mirror : Match.t :=
  Match.mk "m2" "c1" "t1" "t1" 1 500 "live" 0 0 None None.

Definition team : Team.t := Team.mk "t1" "Owls" None "u1" 3.

(** A competition open until time 2000 for two teams, and the membership of
    user u1 in team t1. *)
Definition cup : Competition.t :=
  Competition.mk "c1" "Cup" None "25.00" 2 3000 4000 2000 true.
Definition membership : TeamMember.t := TeamMember.mk "tm1" "t1" "u1".
Definition league : LocalData :=
  mkData ∅ {[ "t1" := team ]} {[ "tm1" := membership ]} {[ "c1" := cup ]}
    ∅ ∅ ∅ ∅ ∅ ∅ ∅ ∅ ∅.

Definition data : LocalData :=
  mkData ∅ {[ "t1" := team ]} ∅ ∅ ∅
    {[ "m1" := fixture; "m2" := mirror ]} {[ "q1" := question ]}
    ∅ ∅ ∅ ∅ ∅ ∅.

(** Socket 0 is connected and has joined no room. *)
Definition server : Server :=
  mkServer data ∅ ∅ (λ c, if decide (c = 0%nat) then OPEN else CONNECTING)
    (λ _, []).

End Sample.

Module Trace.

(** An administrator registers and starts match m1; a client connects,
    joins the match and submits an answer. *)
Definition signed_up : Server :=
  handle Sample.env
    (http (POST_auth_register
             (inr (User.mk "" "root@quiz.test" "root" "secret" "admin"))))
    initial.
Definition started : Server :=
  handle Sample.env (http (POST_admin_matches_start (Some "id-a") "m1"))
    signed_up.
Definition connected : Server := handle Sample.env (connection 0) started.
Definition joined : Server :=
  handle Sample.env (message 0 (join_match "m1" "u1")) connected.
Definition answered : Server :=
  handle Sample.env
    (message 0 (submit_answer "m1" "u1" "q1" "B" "t1" None)) joined.

End Trace.

(** ** Further adapter methods and routes *)

(** [array.sort(compare)]: the stable sort by a comparator whose sign says
    which of two elements comes first. *)
Fixpoint insert_sorted {A} (compare : A → A → Z) (x : A) (l : list A)
  : list A :=
  match l with
  | [] => [x]
  | y :: l' =>
      if decide (compare x y <= 0) then x :: l
      else y :: insert_sorted compare x l'
  end.

Definition sort_by {A} (compare : A → A → Z) (l : list A) : list A :=
  foldr (insert_sorted compare) [] l.

Module Queries.

(** The loop of [removeTeamMember] deletes every membership row of the
    user in the team. *)
Definition removeTeamMember (teamId userId : string) (d : LocalData)
  : LocalData :=
  Storage.set_teamMembers
    (filter (λ kv : string * TeamMember.t,
               ¬ (TeamMember.teamId kv.2 = teamId
                  ∧ TeamMember.userId kv.2 = userId))
            (teamMembers d)) d.

(** [delete this.data.teams[id]] removes the own property [id]. *)
Definition deleteTeam (id : string) (d : LocalData) : LocalData :=
  Storage.set_teams (delete id (teams d)) d.

(** [teamIds.map(id => this.data.teams[id]).filter(Boolean)] *)
Definition getTeamsByUser (userId : string) (d : LocalData) : list Team.t :=
  let teamIds :=
    TeamMember.teamId
      <$> filter (λ m, TeamMember.userId m = userId) (values (teamMembers d)) in
  omap (λ id, teams d !! id) teamIds.

(** The team with the users of its membership rows; rows whose user is
    missing are dropped (own properties, see [own_key]). *)
Definition getTeamWithMembers (id : string) (d : LocalData)
  : option (Team.t * list User.t) :=
  match teams d !! id with
  | None => None
  | Some team =>
      let members :=
        omap (λ m, users d !! TeamMember.userId m)
             (filter (λ m, TeamMember.teamId m = id)
                     (values (teamMembers d))) in
      Some (team, members)
  end.

(** The comparator of [getStandingsByCompetition]: league points first,
    goal difference next, both descending. *)
Definition standing_compare (a b : Standing.t) : Z :=
  let pointDiff := Standing.leaguePoints b - Standing.leaguePoints a in
  if decide (pointDiff = 0)
  then Standing.goalDifference b - Standing.goalDifference a
  else pointDiff.

Definition getStandingsByCompetition (competitionId : string) (d : LocalData)
  : list Standing.t :=
  sort_by standing_compare
    (filter (λ s, Standing.competitionId s = competitionId)
            (values (standings d))).

Definition getStandingForTeam (competitionId teamId : string) (d : LocalData)
  : option Standing.t :=
  head (filter (λ s, Standing.competitionId s = competitionId
                     ∧ Standing.teamId s = teamId)
               (values (standings d))).

Definition getUpcomingMatchesForTeam (teamId : string) (d : LocalData)
  : list Match.t :=
  sort_by (λ a b, Match.scheduledAt a - Match.scheduledAt b)
    (filter (λ m, (Match.homeTeamId m = teamId ∨ Match.awayTeamId m = teamId)
                  ∧ Match.status m = "waiting")
            (values (matches d))).

(** The match with its two team rows (own properties, see [own_key]). *)
Definition getMatchWithTeams (id : string) (d : LocalData)
  : option (Match.t * Team.t * Team.t) :=
  match matches d !! id with
  | None => None
  | Some m =>
      match teams d !! Match.homeTeamId m, teams d !! Match.awayTeamId m with
      | Some homeTeam, Some awayTeam => Some (m, homeTeam, awayTeam)
      | _, _ => None
      end
  end.

End Queries.

(** *** The tests the handlers make on a looked-up row *)

(** [if (question && match)] of the submit_answer branch. *)
Definition submit_guard (questionId matchId : string) (d : LocalData) : bool :=
  truthy_lookup (questions d) questionId && truthy_lookup (matches d) matchId.

(** [if (!competition)] of the registration route, negated: the request
    goes on to the deadline, duplicate, capacity and membership tests. *)
Definition competition_guard (competitionId : string) (d : LocalData) : bool :=
  truthy_lookup (competitions d) competitionId.

(** *** Match creation *)

(** [InsertMatch]: the insert schema of the [matches] table; [status] has a
    column default and is optional. *)
Module InsertMatch.
Record t := mk {
    competitionId : string; homeTeamId : string; awayTeamId : string;
    round : Z; scheduledAt : Z; status : option string }.
End InsertMatch.

(** The object [createMatch] builds; a property that is not set is [None]. *)
Module MatchObject.
Record t := mk {
    id : string; competitionId : string; homeTeamId : string;
    awayTeamId : string; round : Z; scheduledAt : Z;
    status : option string; homeScore : Z; awayScore : Z;
    startedAt : option Z; completedAt : option Z }.
End MatchObject.

(** [LocalStorageAdapter.createMatch]: the object stored under the new id
    and returned,
    [{ ...match, id, homeScore: 0, awayScore: 0, startedAt: null,
       completedAt: null }]. *)
Definition createMatch (id : string) (ins : InsertMatch.t) : MatchObject.t :=
  MatchObject.mk id (InsertMatch.competitionId ins)
    (InsertMatch.homeTeamId ins) (InsertMatch.awayTeamId ins)
    (InsertMatch.round ins) (InsertMatch.scheduledAt ins)
    (InsertMatch.status ins) 0 0 None None.

(** *** The two halves of POST /api/auth/register *)

Module Registration.

(** Up to [await bcrypt.hash]: the body is parsed and the two uniqueness
    checks are made on the data of that moment. *)
Definition checks (body : Parsed User.t) (d : LocalData)
  : Response + User.t :=
  match body with
  | inl issue => inl (fail 400 issue)
  | inr data =>
      match Storage.getUserByEmail (User.email data) d with
      | Some _ => inl (fail 400 "Email already registered")
      | None =>
          match Storage.getUserByUsername (User.username data) d with
          | Some _ => inl (fail 400 "Username already taken")
          | None => inr data
          end
      end
  end.

(** After the hash is ready: the user is created in the data of that later
    moment. *)
Definition store (e : Env) (data : User.t) (d : LocalData)
  : Response * LocalData :=
  let '(user, d') :=
    Storage.createUser (id1 e)
      (User.mk "" (User.email data) (User.username data)
         (bcrypt_hash e (User.password data)) (User.role data))
      d in
  (json (UserBody (Some user)), d').

End Registration.

Module Session.


(** POST /api/auth/login: the response and, on success, the user id put
    in the session. The parsed body is the pair of email and password. *)
Definition auth_login (e : Env) (body : Parsed (string * string))
    (d : LocalData) : Response * option string :=
  match body with
  | inl issue => (fail 400 issue, None)
  | inr (email, password) =>
      match Storage.getUserByEmail email d with
      | None => (fail 401 "Invalid credentials", None)
      | Some user =>
          if bcrypt_compare e password (User.password user)
          then (json (UserBody (Some user)), Some (User.id user))
          else (fail 401 "Invalid credentials", None)
      end
  end.


End Session.

(** *** More vocabulary *)

(** The answers a user gave in a match. *)
Definition answers_by (matchId userId : string) (d : LocalData)
  : list PlayerAnswer.t :=
  filter (λ a, PlayerAnswer.userId a = userId)
         (Storage.getAnswersByMatch matchId d).

(** The session user is a stored user whose role is admin. *)
Definition admin_session (session : option string) (d : LocalData) : Prop :=
  ∃ uid user,
    requireAuth session = Some uid ∧ users d !! uid = Some user
    ∧ User.role user = "admin".

(** The session the three admin routes are called with. *)
Definition admin_request (req : Request) : option (option string) :=
  match req with
  | POST_admin_competitions session _ => Some session
  | POST_admin_questions session _ => Some session
  | POST_admin_matches_start session _ => Some session
  | _ => None
  end.

(** No two user rows share an email, or a username. *)
Definition unique_emails (d : LocalData) : Prop :=
  ∀ k1 k2 u1 u2,
    users d !! k1 = Some u1 → users d !! k2 = Some u2 →
    User.email u1 = User.email u2 → k1 = k2.
Definition unique_usernames (d : LocalData) : Prop :=
  ∀ k1 k2 u1 u2,
    users d !! k1 = Some u1 → users d !! k2 = Some u2 →
    User.username u1 = User.username u2 → k1 = k2.

(** The sum of the amounts of the token transactions of a team. *)
Definition ledger (teamId : string) (d : LocalData) : Z :=
  foldr Z.add 0
    (TokenTransaction.amount
       <$> filter (λ t, TokenTransaction.teamId t = teamId)
                  (values (tokenTransactions d))).

(** The number of registrations of a competition. *)
Definition registrations_of (competitionId : string) (d : LocalData) : Z :=
  Z.of_nat (length (Storage.getRegisteredTeams competitionId d)).

(** The order a comparator describes. *)
Definition ordered_by {A} (compare : A → A → Z) (a b : A) : Prop :=
  compare a b <= 0.

(** *** A seeded process used in further examples *)
Module Demo.

Definition admin : User.t :=
  User.mk "a1" "root@quiz.test" "root" "hash" "admin".
Definition player : User.t :=
  User.mk "u1" "ann@quiz.test" "ann" "hash" "user".

(** Two waiting matches of team t1, the later-created one scheduled first. *)
Definition opener : Match.t :=
  Match.mk "m1" "c1" "t1" "t2" 1 500 "waiting" 0 0 None None.
Definition return_leg : Match.t :=
  Match.mk "m3" "c1" "t2" "t1" 2 400 "waiting" 0 0 None None.

Definition data : LocalData :=
  mkData {[ "a1" := admin; "u1" := player ]} {[ "t1" := Sample.team ]}
    {[ "tm1" := Sample.membership ]} {[ "c1" := Sample.cup ]} ∅
    {[ "m1" := opener; "m3" := return_leg ]} {[ "q1" := Sample.question ]}
    ∅ ∅ ∅ ∅ ∅ ∅.

Definition server : Server := start data.

(** A second registration with the email of [player], and the environment
    of a later handler run. *)
Definition namesake : User.t :=
  User.mk "" "ann@quiz.test" "annie" "secret" "user".
Definition later : Env :=
  mkEnv 2000 "id-d" "id-e" "id-f" (λ l, l) (λ p, p) (λ _ _, true)
    (λ t, t + 7 * 86400000).

(** The same process with both teams of the matches stored. *)
Definition visitors : Team.t := Team.mk "t2" "Larks" None "a1" 0.
Definition derby : LocalData :=
  Storage.set_teams {[ "t1" := Sample.team; "t2" := visitors ]} data.

End Demo.

(** ** Proof automation *)

Ltac unfold_routes :=
  unfold Routes.auth_register, Routes.auth_profile,
    Routes.auth_change_password, Routes.teams_create, Routes.teams_invite,
    Routes.competition_register, Routes.practice_start,
    Routes.practice_answer, Routes.payments_tokens,
    Routes.admin_competitions, Routes.admin_questions,
    Storage.createUser, Storage.updateUser, Storage.createTeam,
    Storage.updateTeam, Storage.addTeamMember, Storage.createCompetition,
    Storage.registerTeam, Storage.createQuestion, Storage.createStanding,
    Storage.createTokenTransaction, Storage.createPayment,
    Storage.createPracticeSession, Storage.updatePracticeSession,
    Storage.createInvitation, Storage.getTeam, Storage.getPracticeSession.

Ltac split_route := repeat case_match; simplify_eq/=.

Ltac destruct_request req :=
  destruct req as
    [ body | session username email | session currentPassword newPassword
    | session body | session teamId email | session competitionId teamId
    | session teamId type | session sessionId questionId answer
    | session teamId amount | session body | session body
    | session matchId ].

(** ** Plain-object lookups *)

Ltac solve_own_key :=
  unfold own_key, prototype_keys;
  apply (bool_decide_unpack _); vm_compute; exact I.

Lemma truthy_lookup_stored {A} (table : gmap string A) id v :
  table !! id = Some v → truthy_lookup table id = true.
Proof.
  intros H. unfold truthy_lookup.
  rewrite (bool_decide_eq_true_2 (is_Some (table !! id))); [done|].
  by rewrite H.
Qed.

Lemma truthy_lookup_inherited {A} (table : gmap string A) id :
  id ∈ prototype_keys → truthy_lookup table id = true.
Proof.
  intros H. unfold truthy_lookup.
  rewrite (bool_decide_eq_true_2 (id ∈ prototype_keys)) by done.
  apply orb_true_r.
Qed.

Lemma truthy_lookup_own {A} (table : gmap string A) id :
  own_key id → truthy_lookup table id = true ↔ is_Some (table !! id).
Proof.
  intros Hown. unfold truthy_lookup.
  rewrite (bool_decide_eq_false_2 (id ∈ prototype_keys)) by done.
  rewrite orb_false_r. apply bool_decide_eq_true.
Qed.


(** ** Properties of the relay *)


Lemma send_fields client data s :
  storage (send client data s) = storage s
  ∧ matchRooms (send client data s) = matchRooms s
  ∧ matchStates (send client data s) = matchStates s
  ∧ readyState (send client data s) = readyState s.
Proof. done. Qed.

Lemma broadcast_fold message (l : list nat) :
  NoDup l → ∀ s,
  let s' :=
    foldl (λ acc client,
             if decide (readyState acc client = OPEN)
             then send client message acc else acc) s l in
  storage s' = storage s ∧ matchRooms s' = matchRooms s
  ∧ matchStates s' = matchStates s ∧ readyState s' = readyState s
  ∧ ∀ c, sent s' c =
         if bool_decide (c ∈ l) && bool_decide (readyState s c = OPEN)
         then sent s c ++ [message] else sent s c.
Proof.
  induction 1 as [|x l Hx Hl IH]; intros s; simpl.
  - repeat split; done.
  - set (s1 := if decide (readyState s x = OPEN)
               then send x message s else s).
    destruct (IH s1) as (Hd & Hr & Hm & Hrs & Hsent).
    assert (Hs1 : storage s1 = storage s ∧ matchRooms s1 = matchRooms s
                  ∧ matchStates s1 = matchStates s
                  ∧ readyState s1 = readyState s).
    { unfold s1. destruct (decide _); done. }
    destruct Hs1 as (Hd1 & Hr1 & Hm1 & Hrs1).
    repeat split; try congruence.
    intros c. rewrite Hsent, Hrs1.
    destruct (decide (c = x)) as [->|Hne].
    + rewrite (bool_decide_eq_false_2 (x ∈ l)) by done.
      rewrite (bool_decide_eq_true_2 (x ∈ x :: l)) by apply list_elem_of_here.
      simpl. unfold s1.
      destruct (decide (readyState s x = OPEN)) as [Ho|Ho].
      * rewrite (bool_decide_eq_true_2 _ Ho). simpl.
        destruct (decide (x = x)); done.
      * by rewrite (bool_decide_eq_false_2 _ Ho).
    + assert (Hsame : sent s1 c = sent s c).
      { unfold s1. destruct (decide _); [|done]. simpl.
        destruct (decide (c = x)); done. }
      rewrite Hsame.
      destruct (decide (c ∈ l)) as [Hin|Hin].
      * rewrite (bool_decide_eq_true_2 _ Hin).
        rewrite (bool_decide_eq_true_2 (c ∈ x :: l))
          by (by apply list_elem_of_further).
        done.
      * rewrite (bool_decide_eq_false_2 _ Hin).
        rewrite (bool_decide_eq_false_2 (c ∈ x :: l))
          by (rewrite elem_of_cons; tauto).
        done.
Qed.

Lemma broadcast_fields matchId message s :
  storage (broadcastToMatch matchId message s) = storage s
  ∧ matchRooms (broadcastToMatch matchId message s) = matchRooms s
  ∧ matchStates (broadcastToMatch matchId message s) = matchStates s
  ∧ readyState (broadcastToMatch matchId message s) = readyState s.
Proof.
  unfold broadcastToMatch. destruct (matchRooms s !! matchId) as [cl|]; [|done].
  destruct (broadcast_fold message (elements cl) (NoDup_elements cl) s)
    as (? & ? & ? & ? & _). done.
Qed.

Lemma broadcast_sent matchId message s c :
  sent (broadcastToMatch matchId message s) c =
  if recipient matchId s c then sent s c ++ [message] else sent s c.
Proof.
  unfold broadcastToMatch, recipient.
  destruct (matchRooms s !! matchId) as [cl|]; [|done].
  destruct (broadcast_fold message (elements cl) (NoDup_elements cl) s)
    as (_ & _ & _ & _ & Hsent).
  rewrite Hsent.
  destruct (decide (c ∈ cl)) as [Hin|Hin].
  - rewrite (bool_decide_eq_true_2 (c ∈ cl)) by done.
    rewrite (bool_decide_eq_true_2 (c ∈ elements cl))
      by (by apply elem_of_elements).
    done.
  - rewrite (bool_decide_eq_false_2 (c ∈ cl)) by done.
    rewrite (bool_decide_eq_false_2 (c ∈ elements cl))
      by (by rewrite elem_of_elements).
    done.
Qed.

(** C5. [broadcastToMatch] hands the serialised message to exactly the
    connections of the room of the given match id whose [readyState] is
    [OPEN], once each; every other connection, whatever other rooms it is
    in, is handed nothing; the rooms, the match states, the stored tables
    and the ready states are left as they were. *)
Theorem broadcastToMatch_exact matchId message s :
  let s' := broadcastToMatch matchId message s in
  (∀ c, sent s' c =
        if recipient matchId s c then sent s c ++ [message] else sent s c)
  ∧ (∀ c clients, matchRooms s !! matchId = Some clients →
       (recipient matchId s c = true ↔ c ∈ clients ∧ readyState s c = OPEN))
  ∧ (∀ c, (∀ clients, matchRooms s !! matchId = Some clients → c ∉ clients) →
       sent s' c = sent s c)
  ∧ matchRooms s' = matchRooms s
  ∧ matchStates s' = matchStates s
  ∧ storage s' = storage s
  ∧ readyState s' = readyState s.
Proof.
  simpl. destruct (broadcast_fields matchId message s) as (Hd & Hr & Hm & Hrs).
  split; [apply broadcast_sent|].
  split.
  { intros c clients Hroom. unfold recipient. rewrite Hroom.
    rewrite andb_true_iff, !bool_decide_eq_true. done. }
  split; [|done].
  intros c Hc. rewrite broadcast_sent. unfold recipient.
  destruct (matchRooms s !! matchId) as [cl|] eqn:E; [|done].
  rewrite (bool_decide_eq_false_2 (c ∈ cl)); [done|]. by apply Hc.
Qed.

(** C9. A [join_match] message adds the socket to the room of the match
    (created when absent; a socket already in the room leaves the rooms as
    they were), and the socket is sent one [match_state] message with the
    recorded state of the match or, when none is recorded, with the default
    (waiting, question 0, scores 0 and 0, 30 seconds); [matchStates] and the
    stored tables are not written. *)
Theorem join_match_room_and_reply e ws matchId userId s :
  let s' := on_message e ws (join_match matchId userId) s in
  let room := default ∅ (matchRooms s !! matchId) in
  let state := default default_match_state (matchStates s !! matchId) in
  matchRooms s' = <[matchId := room ∪ {[ws]}]> (matchRooms s)
  ∧ (ws ∈ room → matchRooms s' = matchRooms s)
  ∧ (∀ c, sent s' c =
          if decide (c = ws) then sent s c ++ [match_state state]
          else sent s c)
  ∧ (matchStates s !! matchId = None →
     state = MatchState.mk "waiting" 0 0 0 30)
  ∧ matchStates s' = matchStates s
  ∧ storage s' = storage s
  ∧ readyState s' = readyState s.
Proof.
  simpl. unfold on_join_match. simpl.
  assert (Hrooms :
    <[matchId :=
        default ∅ (match matchRooms s !! matchId with
                   | Some _ => matchRooms s
                   | None => <[matchId := ∅]> (matchRooms s)
                   end !! matchId) ∪ {[ws]}]>
      (match matchRooms s !! matchId with
       | Some _ => matchRooms s
       | None => <[matchId := ∅]> (matchRooms s)
       end)
    = <[matchId := default ∅ (matchRooms s !! matchId) ∪ {[ws]}]>
        (matchRooms s)).
  { destruct (matchRooms s !! matchId) as [cl|] eqn:E.
    - by rewrite E.
    - rewrite lookup_insert_eq. simpl. by rewrite insert_insert_eq. }
  split; [exact Hrooms|].
  split.
  { intros Hin. rewrite Hrooms.
    destruct (matchRooms s !! matchId) as [cl|] eqn:E; simpl in *.
    - apply insert_id. rewrite E. f_equal.
      apply set_eq. intros x. rewrite elem_of_union, elem_of_singleton.
      naive_solver.
    - by apply not_elem_of_empty in Hin. }
  split; [done|].
  split; [|done].
  intros ->. done.
Qed.



Lemma tally_counts home away (l : list PlayerAnswer.t) : ∀ h a,
  foldl (tally home away) (h, a) l =
  (h + Z.of_nat (length (filter (λ x, PlayerAnswer.isCorrect x = true
                                      ∧ PlayerAnswer.teamId x = home) l)),
   a + Z.of_nat (length (filter (λ x, PlayerAnswer.isCorrect x = true
                                      ∧ PlayerAnswer.teamId x = away
                                      ∧ PlayerAnswer.teamId x ≠ home) l))).
Proof.
  induction l as [|x l IH]; intros h a.
  - cbn. f_equal; lia.
  - cbn [foldl]. rewrite !filter_cons.
    destruct (tally home away (h, a) x) as [h' a'] eqn:E. rewrite IH.
    unfold tally in E.
    destruct (PlayerAnswer.isCorrect x) eqn:Hc;
      repeat case_decide; simplify_eq/=;
      first [ f_equal; lia | tauto | naive_solver ].
Qed.

Lemma answers_home_count matchId home d :
  length (filter (λ x, PlayerAnswer.isCorrect x = true
                       ∧ PlayerAnswer.teamId x = home)
                 (Storage.getAnswersByMatch matchId d))
  = correct_answers_of matchId home d.
Proof.
  unfold Storage.getAnswersByMatch, correct_answers_of.
  rewrite list_filter_filter. f_equal. apply list_filter_iff. tauto.
Qed.

Lemma answers_away_count matchId home away d :
  length (filter (λ x, PlayerAnswer.isCorrect x = true
                       ∧ PlayerAnswer.teamId x = away
                       ∧ PlayerAnswer.teamId x ≠ home)
                 (Storage.getAnswersByMatch matchId d))
  = correct_answers_of_but matchId away home d.
Proof.
  unfold Storage.getAnswersByMatch, correct_answers_of_but.
  rewrite list_filter_filter. f_equal. apply list_filter_iff. tauto.
Qed.

Lemma correct_answers_of_but_ne matchId teamId other d :
  teamId ≠ other →
  correct_answers_of_but matchId teamId other d
  = correct_answers_of matchId teamId d.
Proof.
  intros Hne. unfold correct_answers_of_but, correct_answers_of.
  f_equal. apply list_filter_iff. intros x. split; [tauto|].
  intros (? & ? & Ht). repeat split; try done. congruence.
Qed.

(** What the [submit_answer] branch does when both lookups succeed. *)
Lemma on_submit_answer_found e ws matchId userId questionId answer teamId
    timeTaken s question m :
  questions (storage s) !! questionId = Some question →
  matches (storage s) !! matchId = Some m →
  let isCorrect := bool_decide (answer = Question.correctAnswer question) in
  let newAnswer :=
    PlayerAnswer.mk (id1 e) matchId questionId userId teamId answer
      isCorrect timeTaken in
  let d1 :=
    Storage.set_playerAnswers
      (<[id1 e := newAnswer]> (playerAnswers (storage s))) (storage s) in
  let home := Z.of_nat (correct_answers_of matchId (Match.homeTeamId m) d1) in
  let away :=
    Z.of_nat (correct_answers_of_but matchId (Match.awayTeamId m)
                (Match.homeTeamId m) d1) in
  let d2 :=
    Storage.set_matches
      (<[matchId := Match.merge m [Match.HomeScore home; Match.AwayScore away]]>
         (matches d1)) d1 in
  let states2 :=
    match matchStates s !! matchId with
    | Some state =>
        <[matchId :=
            MatchState.mk (MatchState.status state)
              (MatchState.currentQuestion state) home away
              (MatchState.timeRemaining state)]> (matchStates s)
    | None => matchStates s
    end in
  on_submit_answer e ws matchId userId questionId answer teamId timeTaken s
  = broadcastToMatch matchId
      (score_update (Storage.getPlayerScoresByMatch matchId d2) home away)
      (set_matchStates states2
         (set_storage d2
            (send ws (answer_result isCorrect) (set_storage d1 s)))).
Proof.
  intros Hq Hm. cbv zeta.
  unfold on_submit_answer, Storage.getQuestion, Storage.getMatch.
  rewrite Hq, Hm. cbn [Storage.submitAnswer snd PlayerAnswer.matchId
    PlayerAnswer.questionId PlayerAnswer.userId PlayerAnswer.teamId
    PlayerAnswer.answer PlayerAnswer.isCorrect PlayerAnswer.timeTaken].
  rewrite tally_counts, answers_home_count, answers_away_count.
  rewrite !Z.add_0_l.
  unfold Storage.updateMatch. cbn [matches Storage.set_playerAnswers].
  rewrite Hm. cbn [snd]. reflexivity.
Qed.

(** C1 (amended). When the question and the match of a [submit_answer]
    message exist, the handler leaves in the match record a [homeScore]
    equal to the number of recorded answers of that match that are correct
    and belong to the home team, and an [awayScore] equal to the number of
    those that are correct, belong to the away team and not to the home
    team (when the two team ids differ this is the number of correct
    answers of the away team). The same two values are put in the match's
    in-memory state, when there is one, and in the [score_update]
    broadcast to the room. *)
Theorem submit_answer_scores e ws matchId userId questionId answer teamId
    timeTaken s question m :
  questions (storage s) !! questionId = Some question →
  matches (storage s) !! matchId = Some m →
  let s' :=
    on_message e ws
      (submit_answer matchId userId questionId answer teamId timeTaken) s in
  let home :=
    Z.of_nat (correct_answers_of matchId (Match.homeTeamId m) (storage s')) in
  let away :=
    Z.of_nat (correct_answers_of_but matchId (Match.awayTeamId m)
                (Match.homeTeamId m) (storage s')) in
  matches (storage s') !! matchId
  = Some (Match.merge m [Match.HomeScore home; Match.AwayScore away])
  ∧ (Match.homeTeamId m ≠ Match.awayTeamId m →
     away = Z.of_nat (correct_answers_of matchId (Match.awayTeamId m)
                        (storage s')))
  ∧ (∀ state, matchStates s !! matchId = Some state →
       matchStates s' !! matchId
       = Some (MatchState.mk (MatchState.status state)
                 (MatchState.currentQuestion state) home away
                 (MatchState.timeRemaining state)))
  ∧ (∀ c, sent s' c =
          sent s c
          ++ (if decide (c = ws)
              then [answer_result
                      (bool_decide (answer = Question.correctAnswer question))]
              else [])
          ++ (if recipient matchId s c
              then [score_update
                      (Storage.getPlayerScoresByMatch matchId (storage s'))
                      home away]
              else [])).
Proof.
  intros Hq Hm. cbv zeta. cbn [on_message].
  rewrite (on_submit_answer_found e ws matchId userId questionId answer
             teamId timeTaken s question m Hq Hm).
  cbv zeta.
  match goal with
  | |- context [broadcastToMatch ?i ?msg ?st] =>
      destruct (broadcast_fields i msg st) as (Hd & Hr & Hms & Hrs);
      pose proof (broadcast_sent i msg st) as Hsent
  end.
  rewrite Hd, Hms. cbn [storage set_matchStates set_storage send matchStates].
  split; [apply lookup_insert_eq|].
  split.
  { intros Hne. f_equal. apply correct_answers_of_but_ne. congruence. }
  split.
  { intros state Hst. rewrite Hst. apply lookup_insert_eq. }
  intros c. rewrite Hsent. unfold recipient at 1.
  cbn [matchRooms set_matchStates set_storage send readyState sent].
  fold (recipient matchId s c).
  destruct (decide (c = ws)); destruct (recipient matchId s c);
    rewrite <- ?app_assoc, ?app_nil_r; reflexivity.
Qed.


(** C1, as stated, fails for a match whose home and away side are the same
    team: one correct answer of that team is recorded, it is counted for
    the home side, and [awayScore] stays 0 although one correct answer
    belongs to the away team id. *)
Lemma submit_answer_same_team_away_score :
  Match.awayScore
    <$> matches
          (storage
             (on_message Sample.env 0
                (submit_answer "m2" "u1" "q1" "B" "t1" None) Sample.server))
        !! "m2"
  = Some 0
  ∧ correct_answers_of "m2" "t1"
      (storage
         (on_message Sample.env 0
            (submit_answer "m2" "u1" "q1" "B" "t1" None) Sample.server))
    = 1%nat.
Proof. split; vm_compute; reflexivity. Qed.

Lemma submit_answer_scores_witness :
  questions (storage Sample.server) !! "q1" = Some Sample.question
  ∧ matches (storage Sample.server) !! "m1" = Some Sample.fixture
  ∧ matches
      (storage
         (on_message Sample.env 0
            (submit_answer "m1" "u1" "q1" "B" "t1" None) Sample.server))
    !! "m1"
    = Some (Match.merge Sample.fixture [Match.HomeScore 1; Match.AwayScore 0]).
Proof.
  split; [reflexivity|]. split; [reflexivity|].
  destruct (submit_answer_scores Sample.env 0%nat "m1" "u1" "q1" "B" "t1" None
              Sample.server Sample.question Sample.fixture
              eq_refl eq_refl) as [H _].
  rewrite H. vm_compute. reflexivity.
Defined.

(** C8, where the code departs from it. The handler tests
    [question && match] on what the plain-object tables answer. For the
    question id "toString" and the match id "constructor" the test passes
    whatever is stored, also in a process that stores no question and no
    match: the handler goes on to reply and to record an answer although
    neither row exists. For identifiers that are not inherited names the
    test is the existence of the two rows. *)
Theorem submit_answer_guard_inherited :
  questions (storage initial) !! "toString" = None
  ∧ matches (storage initial) !! "constructor" = None
  ∧ (∀ d, submit_guard "toString" "constructor" d = true)
  ∧ (∀ questionId matchId d,
       own_key questionId → own_key matchId →
       submit_guard questionId matchId d = true
       ↔ is_Some (questions d !! questionId) ∧ is_Some (matches d !! matchId)).
Proof.
  split; [reflexivity|]. split; [reflexivity|]. split.
  - intros d. unfold submit_guard.
    rewrite !truthy_lookup_inherited; [done| |];
      apply (bool_decide_unpack _); vm_compute; exact I.
  - intros questionId matchId d Hq Hm. unfold submit_guard.
    rewrite andb_true_iff.
    by rewrite (truthy_lookup_own _ _ Hq), (truthy_lookup_own _ _ Hm).
Qed.


(** ** Properties of the routes *)

Lemma elem_of_values {A} (table : gmap string A) (v : A) :
  v ∈ values table ↔ ∃ k, table !! k = Some v.
Proof.
  unfold values. rewrite list_elem_of_fmap. split.
  - intros [[k v'] [-> Hin]]. exists k. by apply elem_of_map_to_list.
  - intros [k Hk]. exists (k, v). split; [done|].
    by apply elem_of_map_to_list.
Qed.

Lemma existsb_values {A} (f : A → bool) (table : gmap string A) :
  existsb f (values table) = true
  ↔ ∃ k v, table !! k = Some v ∧ f v = true.
Proof.
  rewrite existsb_exists. split.
  - intros [v [Hin Hf]]. apply list_elem_of_In, elem_of_values in Hin.
    destruct Hin as [k Hk]. eauto.
  - intros (k & v & Hk & Hf). exists v. split; [|done].
    apply list_elem_of_In, elem_of_values. eauto.
Qed.



Lemma isTeamRegistered_spec competitionId teamId d :
  Storage.isTeamRegistered competitionId teamId d = true
  ↔ registered competitionId teamId d.
Proof.
  unfold Storage.isTeamRegistered, registered. rewrite existsb_values.
  split; intros (k & r & Hk & H); exists k, r; split; try done.
  - apply andb_prop in H as [H1 H2].
    by apply bool_decide_eq_true in H1, H2.
  - destruct H as [H1 H2]. by rewrite !bool_decide_eq_true_2.
Qed.

Lemma isTeamMember_spec teamId userId d :
  Storage.isTeamMember teamId userId d = true ↔ member teamId userId d.
Proof.
  unfold Storage.isTeamMember, member. rewrite existsb_values.
  split; intros (k & r & Hk & H); exists k, r; split; try done.
  - apply andb_prop in H as [H1 H2].
    by apply bool_decide_eq_true in H1, H2.
  - destruct H as [H1 H2]. by rewrite !bool_decide_eq_true_2.
Qed.





Lemma competition_register_cases e session competitionId teamId d :
  (∃ uid competition,
     requireAuth session = Some uid
     ∧ competitions d !! competitionId = Some competition
     ∧ now e <= Competition.registrationDeadline competition
     ∧ ¬ registered competitionId teamId d
     ∧ Z.of_nat (length (Storage.getRegisteredTeams competitionId d))
       < Competition.maxTeams competition
     ∧ member teamId uid d
     ∧ Routes.competition_register e session competitionId teamId d
       = (json (RegistrationBody
                  (CompetitionRegistration.mk (id2 e) competitionId teamId
                     uid (Some (id1 e)))),
          Storage.set_standings
            (<[id3 e := Standing.mk (id3 e) competitionId teamId
                          0 0 0 0 0 0 0 0]> (standings d))
            (Storage.set_competitionRegistrations
               (<[id2 e := CompetitionRegistration.mk (id2 e) competitionId
                             teamId uid (Some (id1 e))]>
                  (competitionRegistrations d))
               (Storage.set_payments
                  (<[id1 e := Payment.mk (id1 e) uid (Some teamId)
                                (Some competitionId)
                                (Competition.registrationFee competition)
                                "registration" "completed"
                                ("REG-" +:+ pretty (now e)) None]>
                     (payments d))
                  d))))
  ∨ (¬ may_register e session competitionId teamId d
     ∧ ∃ c message,
         400 <= c < 500
         ∧ Routes.competition_register e session competitionId teamId d
           = (fail c message, d)).
Proof.
  unfold Routes.competition_register, Storage.getCompetition, may_register.
  destruct (requireAuth session) as [uid|] eqn:Hauth.
  2: { right. split; [by intros (? & ? & ? & _)|].
       exists 401, "Unauthorized". split; [lia|done]. }
  destruct (competitions d !! competitionId) as [competition|] eqn:Hc.
  2: { right. split; [by intros (? & ? & ? & ? & _)|].
       exists 404, "Competition not found". split; [lia|done]. }
  destruct (decide (Competition.registrationDeadline competition < now e))
    as [Hlate|Hlate].
  { right. split.
    - intros (? & ? & ? & [= <-] & ? & _). lia.
    - exists 400, "Registration deadline has passed". split; [lia|done]. }
  destruct (Storage.isTeamRegistered competitionId teamId d) eqn:Hreg.
  { right. apply isTeamRegistered_spec in Hreg. split.
    - intros (? & ? & ? & ? & ? & Hn & _). by apply Hn.
    - exists 400, "Team already registered". split; [lia|done]. }
  destruct (decide (Competition.maxTeams competition
                    <= Z.of_nat (length
                         (Storage.getRegisteredTeams competitionId d))))
    as [Hfull|Hfull].
  { right. split.
    - intros (? & ? & ? & [= <-] & ? & ? & ? & _). lia.
    - exists 400, "Competition is full". split; [lia|done]. }
  destruct (Storage.isTeamMember teamId uid d) eqn:Hmem; cbn [negb].
  - left. exists uid, competition. apply isTeamMember_spec in Hmem.
    repeat split; try done; try lia.
    intros Hr. apply isTeamRegistered_spec in Hr. congruence.
  - right. split.
    + intros (? & ? & [= <-] & ? & ? & ? & ? & Hm).
      apply isTeamMember_spec in Hm. congruence.
    + exists 403, "You are not a member of this team". split; [lia|done].
Qed.

(** C10, where the code departs from it. The route tests [!competition] on
    what the plain-object table answers. For the competition id
    "constructor" the lookup is never empty, whatever is stored, also when
    no competition is stored at all: the request is not answered 404 and
    goes on to the later tests although the competition does not exist. For
    an identifier that is not an inherited name the test is the existence
    of the row. *)
Theorem register_guard_inherited :
  competitions (storage initial) !! "constructor" = None
  ∧ (∀ d, competition_guard "constructor" d = true)
  ∧ (∀ competitionId d,
       own_key competitionId →
       competition_guard competitionId d = true
       ↔ is_Some (competitions d !! competitionId)).
Proof.
  split; [reflexivity|]. split.
  - intros d. unfold competition_guard.
    rewrite truthy_lookup_inherited; [done|].
    apply (bool_decide_unpack _); vm_compute; exact I.
  - intros competitionId d Hown. unfold competition_guard.
    by apply truthy_lookup_own.
Qed.

(** X26. For a competition id that is not an inherited name,
    POST /api/competitions/:id/register creates a registration
    exactly when the competition exists, its deadline has not passed, the
    team is not registered yet, the competition has fewer registrations
    than [maxTeams] and the session user is a member of the team. On
    success it stores a completed payment of the registration fee, the
    registration (which refers to that payment) and a standing whose
    counters are all zero; when a check fails the answer is a 4xx and no
    table is written. *)
Theorem competition_register_iff e session competitionId teamId d :
  own_key competitionId →
  let r := (Routes.competition_register e session competitionId teamId d).1 in
  let d' := (Routes.competition_register e session competitionId teamId d).2 in
  (competitionRegistrations d' ≠ competitionRegistrations d
   ↔ may_register e session competitionId teamId d)
  ∧ (may_register e session competitionId teamId d →
     ∃ uid competition,
       requireAuth session = Some uid
       ∧ competitions d !! competitionId = Some competition
       ∧ code r = 200
       ∧ r = json (RegistrationBody
                     (CompetitionRegistration.mk (id2 e) competitionId teamId
                        uid (Some (id1 e))))
       ∧ payments d'
         = <[id1 e := Payment.mk (id1 e) uid (Some teamId) (Some competitionId)
                        (Competition.registrationFee competition)
                        "registration" "completed"
                        ("REG-" +:+ pretty (now e)) None]> (payments d)
       ∧ competitionRegistrations d'
         = <[id2 e := CompetitionRegistration.mk (id2 e) competitionId teamId
                        uid (Some (id1 e))]> (competitionRegistrations d)
       ∧ standings d'
         = <[id3 e := Standing.mk (id3 e) competitionId teamId
                        0 0 0 0 0 0 0 0]> (standings d))
  ∧ (¬ may_register e session competitionId teamId d →
     400 <= code r < 500 ∧ d' = d).
Proof.
  intros _. cbv zeta.
  destruct (competition_register_cases e session competitionId teamId d)
    as [(uid & competition & Ha & Hc & Ht & Hn & Hcap & Hmem & ->)
       |(Hno & c & msg & Hcode & ->)]; cbn [fst snd].
  - assert (Hmay : may_register e session competitionId teamId d).
    { exists uid, competition. done. }
    split; [|split].
    + split; [done|]. intros _ Heq. apply Hn.
      exists (id2 e), (CompetitionRegistration.mk (id2 e) competitionId teamId
                         uid (Some (id1 e))).
      cbn in Heq. rewrite <- Heq. rewrite lookup_insert_eq. done.
    + intros _. exists uid, competition. repeat split; done.
    + done.
  - split; [|split]; done.
Qed.

Lemma competition_register_iff_witness :
  own_key "c1"
  ∧ may_register Sample.env (Some "u1") "c1" "t1" Sample.league
  ∧ code (Routes.competition_register Sample.env (Some "u1") "c1" "t1"
            Sample.league).1 = 200
  ∧ standings (Routes.competition_register Sample.env (Some "u1") "c1" "t1"
                 Sample.league).2 !! "id-c"
    = Some (Standing.mk "id-c" "c1" "t1" 0 0 0 0 0 0 0 0).
Proof.
  assert (Hmay : may_register Sample.env (Some "u1") "c1" "t1" Sample.league).
  { exists "u1", Sample.cup. split; [reflexivity|]. split; [reflexivity|].
    split; [cbn; lia|]. split.
    - intros (k & r & Hk & _). cbn in Hk. by rewrite lookup_empty in Hk.
    - split; [vm_compute; reflexivity|].
      exists "tm1", Sample.membership. repeat split. }
  assert (Hown : own_key "c1") by solve_own_key.
  split; [exact Hown|]. split; [exact Hmay|].
  destruct (proj1 (proj2 (competition_register_iff Sample.env (Some "u1")
                            "c1" "t1" Sample.league Hown)) Hmay)
    as (uid & competition & _ & _ & Hcode & _ & _ & _ & Hst).
  split; [exact Hcode|].
  rewrite Hst. apply lookup_insert_eq.
Defined.

(** ** What a step can change *)


(** The routes that only use the storage tables never write [matches]. *)
Lemma storage_routes_matches e req s :
  (∀ session matchId, req ≠ POST_admin_matches_start session matchId) →
  matches (storage (serve e req s).2) = matches (storage s).
Proof.
  intros Hreq. destruct_request req; cbn [serve]; unfold on_storage;
    cbn [snd fst storage set_storage];
    try (unfold_routes; split_route; reflexivity).
  by destruct (Hreq session matchId).
Qed.


Lemma storage_routes_standings e req s :
  (∀ session matchId, req ≠ POST_admin_matches_start session matchId) →
  (∀ session competitionId teamId,
     req ≠ POST_competitions_register session competitionId teamId) →
  standings (storage (serve e req s).2) = standings (storage s).
Proof.
  intros Hstart Hreg. destruct_request req; cbn [serve]; unfold on_storage;
    cbn [snd fst storage set_storage];
    try (unfold_routes; split_route; reflexivity).
  - by destruct (Hreg session competitionId teamId).
  - by destruct (Hstart session matchId).
Qed.

Lemma serve_standings e req s k r' :
  standings (storage (serve e req s).2) !! k = Some r' →
  standings (storage s) !! k = Some r' ∨ zero_counters r'.
Proof.
  destruct_request req.
  6: { cbn [serve]; unfold on_storage; cbn [snd fst storage set_storage].
       destruct (competition_register_cases e session competitionId teamId
                   (storage s))
         as [(uid & competition & _ & _ & _ & _ & _ & _ & ->)
            |(_ & c & msg & _ & ->)]; cbn [snd]; [|by left].
       cbn [standings Storage.set_standings].
       destruct (decide (k = id3 e)) as [->|Hne].
       + rewrite lookup_insert_eq. intros [= <-]. right. repeat split.
       + rewrite lookup_insert_ne by done. by left. }
  11: { cbn [serve]. unfold Routes.admin_match_start.
        destruct (requireAdmin session (storage s)); cbn [snd]; [by left|].
        match goal with
        | |- context [broadcastToMatch ?i ?msg ?st] =>
            destruct (broadcast_fields i msg st) as (-> & _)
        end.
        cbn [storage set_matchStates set_storage].
        unfold Storage.updateMatch. split_route; by left. }
  all: rewrite storage_routes_standings by done; by left.
Qed.

Lemma serve_rooms e req s :
  matchRooms (serve e req s).2 = matchRooms s
  ∧ readyState (serve e req s).2 = readyState s.
Proof.
  destruct_request req; cbn [serve]; unfold on_storage; try done.
  unfold Routes.admin_match_start.
  destruct (requireAdmin session (storage s)); cbn [snd]; [done|].
  match goal with
  | |- context [broadcastToMatch ?i ?msg ?st] =>
      destruct (broadcast_fields i msg st) as (_ & -> & _ & ->)
  end. done.
Qed.

Lemma on_message_storage e ws msg s :
  standings (storage (on_message e ws msg s)) = standings (storage s)
  ∧ ∀ k r', matches (storage (on_message e ws msg s)) !! k = Some r' →
      ∃ r, matches (storage s) !! k = Some r
           ∧ Match.status r' = Match.status r.
Proof.
  destruct msg as [matchId userId|matchId userId questionId answer teamId tt|];
    cbn [on_message]; [split; [done|eauto] | | split; [done|eauto]].
  destruct (questions (storage s) !! questionId) as [question|] eqn:Hq.
  2: { unfold on_submit_answer, Storage.getQuestion. rewrite Hq. eauto. }
  destruct (matches (storage s) !! matchId) as [m|] eqn:Hm.
  2: { unfold on_submit_answer, Storage.getQuestion, Storage.getMatch.
       rewrite Hq, Hm. eauto. }
  rewrite (on_submit_answer_found e ws matchId userId questionId answer
             teamId tt s question m Hq Hm). cbv zeta.
  match goal with
  | |- context [broadcastToMatch ?i ?msg ?st] =>
      destruct (broadcast_fields i msg st) as (-> & _)
  end.
  cbn [storage set_matchStates set_storage matches standings
       Storage.set_matches Storage.set_playerAnswers].
  split; [done|]. intros k r'.
  destruct (decide (k = matchId)) as [->|Hne].
  - rewrite lookup_insert_eq. intros [= <-]. eauto.
  - rewrite lookup_insert_ne by done. eauto.
Qed.

Lemma serve_matches e req s k r' :
  matches (storage (serve e req s).2) !! k = Some r' →
  ∃ r, matches (storage s) !! k = Some r
       ∧ (Match.status r' = Match.status r ∨ Match.status r' = "live").
Proof.
  destruct_request req.
  12: { cbn [serve]. unfold Routes.admin_match_start.
        destruct (requireAdmin session (storage s)); cbn [snd]; [eauto|].
        match goal with
        | |- context [broadcastToMatch ?i ?msg ?st] =>
            destruct (broadcast_fields i msg st) as (-> & _)
        end.
        cbn [storage set_matchStates set_storage].
        unfold Storage.updateMatch.
        destruct (matches (storage s) !! matchId) as [m|] eqn:Hm; cbn [snd];
          [|eauto].
        cbn [matches Storage.set_matches].
        destruct (decide (k = matchId)) as [->|Hk].
        + rewrite lookup_insert_eq. intros [= <-]. eauto.
        + rewrite lookup_insert_ne by done. eauto. }
  all: rewrite storage_routes_matches by done; eauto.
Qed.

Lemma on_message_rooms e ws matchId userId questionId answer teamId tt s :
  matchRooms
    (on_message e ws
       (submit_answer matchId userId questionId answer teamId tt) s)
  = matchRooms s
  ∧ readyState
      (on_message e ws
         (submit_answer matchId userId questionId answer teamId tt) s)
    = readyState s.
Proof.
  cbn [on_message]. unfold on_submit_answer.
  destruct (Storage.getQuestion questionId (storage s)); [|done].
  destruct (Storage.getMatch matchId (storage s)); [|done].
  destruct (foldl _ _ _) as [h a].
  match goal with
  | |- context [broadcastToMatch ?i ?msg ?st] =>
      destruct (broadcast_fields i msg st) as (_ & -> & _ & ->)
  end. done.
Qed.

Lemma on_message_matchStates e ws msg s k st' :
  matchStates (on_message e ws msg s) !! k = Some st' →
  ∃ st, matchStates s !! k = Some st
        ∧ MatchState.status st' = MatchState.status st
        ∧ MatchState.currentQuestion st' = MatchState.currentQuestion st.
Proof.
  destruct msg as [matchId userId|matchId userId questionId answer teamId tt|];
    cbn [on_message]; [eauto| |eauto].
  unfold on_submit_answer.
  destruct (Storage.getQuestion questionId (storage s)); [|eauto].
  destruct (Storage.getMatch matchId (storage s)); [|eauto].
  destruct (foldl _ _ _) as [h a].
  match goal with
  | |- context [broadcastToMatch ?i ?msg ?st] =>
      destruct (broadcast_fields i msg st) as (_ & _ & -> & _)
  end.
  cbn [matchStates set_matchStates set_storage send].
  destruct (matchStates s !! matchId) as [state|] eqn:Hs; [|eauto].
  destruct (decide (k = matchId)) as [->|Hne].
  - rewrite lookup_insert_eq. intros [= <-]. eauto.
  - rewrite lookup_insert_ne by done. eauto.
Qed.

Lemma serve_matchStates e req s k st' :
  matchStates (serve e req s).2 !! k = Some st' →
  matchStates s !! k = Some st'
  ∨ (MatchState.status st' = "live" ∧ MatchState.currentQuestion st' = 0).
Proof.
  destruct_request req; cbn [serve]; unfold on_storage; try by left.
  unfold Routes.admin_match_start.
  destruct (requireAdmin session (storage s)); cbn [snd]; [by left|].
  match goal with
  | |- context [broadcastToMatch ?i ?msg ?st] =>
      destruct (broadcast_fields i msg st) as (_ & _ & -> & _)
  end.
  cbn [matchStates set_matchStates set_storage].
  destruct (decide (k = matchId)) as [->|Hne].
  - rewrite lookup_insert_eq. intros [= <-]. by right.
  - rewrite lookup_insert_ne by done. by left.
Qed.

(** *** Steps of the transition system *)

Lemma handle_standings e ev s k r' :
  standings (storage (handle e ev s)) !! k = Some r' →
  standings (storage s) !! k = Some r' ∨ zero_counters r'.
Proof.
  destruct ev as [ws|ws msg|ws|ws|req]; cbn [handle]; try (by left).
  - destruct (on_message_storage e ws msg s) as [-> _]. by left.
  - apply serve_standings.
Qed.

Lemma handle_matches e ev s k r' :
  matches (storage (handle e ev s)) !! k = Some r' →
  ∃ r, matches (storage s) !! k = Some r
       ∧ (Match.status r' = Match.status r ∨ Match.status r' = "live").
Proof.
  destruct ev as [ws|ws msg|ws|ws|req]; cbn [handle]; try (by eauto).
  - destruct (on_message_storage e ws msg s) as [_ H]. intros Hk.
    destruct (H k r' Hk) as (r & ? & ?). eauto.
  - apply serve_matches.
Qed.

Lemma handle_matchStates e ev s k st' :
  matchStates (handle e ev s) !! k = Some st' →
  (MatchState.status st' = "live" ∧ MatchState.currentQuestion st' = 0)
  ∨ ∃ st, matchStates s !! k = Some st
          ∧ MatchState.status st' = MatchState.status st
          ∧ MatchState.currentQuestion st' = MatchState.currentQuestion st.
Proof.
  destruct ev as [ws|ws msg|ws|ws|req]; cbn [handle]; try (by eauto).
  - intros H. right. by apply (on_message_matchStates e ws msg).
  - intros [H|H]%serve_matchStates; eauto.
Qed.

Lemma reachable_standings d0 s :
  reachable d0 s →
  (∀ k r, standings d0 !! k = Some r → zero_counters r) →
  ∀ k r, standings (storage s) !! k = Some r → zero_counters r.
Proof.
  induction 1 as [|e ev s Hs IH Hen]; intros Hzero k r.
  - apply Hzero.
  - intros [H|H]%handle_standings; eauto.
Qed.

Lemma reachable_currentQuestion d0 s :
  reachable d0 s →
  ∀ k st, matchStates s !! k = Some st → MatchState.currentQuestion st = 0.
Proof.
  induction 1 as [|e ev s Hs IH Hen]; intros k st.
  - cbn [start matchStates]. by rewrite lookup_empty.
  - intros [[_ H]|(st0 & H0 & _ & ->)]%handle_matchStates; eauto.
Qed.

(** ** Standings and match completion *)

(** C2, as stated, fails: no step of the system recomputes a standing.
    There is no event, from any state, after which some standings row is
    different from the row stored under the same id before and has a
    non-zero counter. *)
Lemma no_step_recomputes_standings :
  ¬ ∃ e ev s k r',
      standings (storage (handle e ev s)) !! k = Some r'
      ∧ standings (storage s) !! k ≠ Some r'
      ∧ ¬ zero_counters r'.
Proof.
  intros (e & ev & s & k & r' & Hafter & Hbefore & Hnz).
  destruct (handle_standings e ev s k r' Hafter); done.
Qed.

(** C2 (amended). Standings are only ever written by a registration, which
    stores a row whose counters are all zero: after any step a standings
    row is either the row stored before under that id or a row of zeros,
    so when the rows the process starts with are rows of zeros, every row
    of a reachable state has played, won, drawn, lost and the points
    fields at zero. Nor does any step complete a match: a match
    whose status is completed after a step had that status before. *)
Theorem standings_never_recomputed :
  (∀ e ev s k r',
     standings (storage (handle e ev s)) !! k = Some r' →
     standings (storage s) !! k = Some r' ∨ zero_counters r')
  ∧ (∀ d0 s, reachable d0 s →
       (∀ k r, standings d0 !! k = Some r → zero_counters r) →
       ∀ k r, standings (storage s) !! k = Some r → zero_counters r)
  ∧ (∀ e ev s k r',
       matches (storage (handle e ev s)) !! k = Some r' →
       Match.status r' = "completed" →
       ∃ r, matches (storage s) !! k = Some r
            ∧ Match.status r = "completed").
Proof.
  split; [apply handle_standings|]. split; [apply reachable_standings|].
  intros e ev s k r' Hk Hdone.
  destruct (handle_matches e ev s k r' Hk) as (r & Hr & [Hs|Hs]).
  - exists r. split; [done|congruence].
  - rewrite Hs in Hdone. discriminate.
Qed.

(** ** Question progression *)


Lemma trace_reachable : reachable empty_data Trace.answered.
Proof.
  unfold Trace.answered, Trace.joined, Trace.connected, Trace.started,
    Trace.signed_up.
  repeat (apply reachable_step); first [apply reachable_start | cbn; auto].
Qed.

(** C6, as stated, fails: in no reachable state does a match's in-memory
    state hold a [currentQuestion] other than 0. *)
Lemma currentQuestion_never_advances :
  ¬ ∃ d0 s k st,
      reachable d0 s ∧ matchStates s !! k = Some st
      ∧ MatchState.currentQuestion st ≠ 0.
Proof.
  intros (d0 & s & k & st & Hs & Hk & Hne).
  by apply Hne, (reachable_currentQuestion d0 s Hs k).
Qed.

(** C6 (amended). The live-match subsystem keeps a [currentQuestion] per
    started match but never advances it: in every reachable state, after a
    match start and any WebSocket messages, it is 0. *)
Theorem currentQuestion_stays_zero d0 s :
  reachable d0 s →
  ∀ k st, matchStates s !! k = Some st → MatchState.currentQuestion st = 0.
Proof. apply reachable_currentQuestion. Qed.

Lemma currentQuestion_stays_zero_witness :
  reachable empty_data Trace.answered
  ∧ matchStates Trace.answered !! "m1"
    = Some (MatchState.mk "live" 0 0 0 30)
  ∧ MatchState.currentQuestion (MatchState.mk "live" 0 0 0 30) = 0.
Proof.
  split; [apply trace_reachable|].
  assert (H : matchStates Trace.answered !! "m1"
              = Some (MatchState.mk "live" 0 0 0 30))
    by (vm_compute; reflexivity).
  split; [exact H|].
  exact (currentQuestion_stays_zero empty_data Trace.answered trace_reachable
           "m1" _ H).
Defined.

(** ** Match status *)

Lemma live_valid : valid_status "live".
Proof. unfold valid_status, matchStatusEnum. set_solver. Qed.

(** C7, where the code departs from it. [createMatch] of the storage
    adapter stores the insert data as given: for an insert without a status
    the stored object has no status at all, neither the column default
    "waiting" nor any other value of the enum. And the test [if (!match)]
    of [updateMatch] passes for the id "constructor" whatever is stored, so
    a score update for that id stores a row made of the two scores alone. *)
Theorem createMatch_status_not_defaulted id competitionId home away round
    scheduledAt :
  let created :=
    createMatch id
      (InsertMatch.mk competitionId home away round scheduledAt None) in
  valid_status matches_status_default
  ∧ MatchObject.status created = None
  ∧ MatchObject.status created ≠ Some matches_status_default
  ∧ ¬ (∃ status, MatchObject.status created = Some status
                 ∧ valid_status status)
  ∧ matches (storage initial) !! "constructor" = None
  ∧ (∀ d, truthy_lookup (matches d) "constructor" = true).
Proof.
  cbv zeta. cbn.
  split; [unfold valid_status, matchStatusEnum, matches_status_default;
          set_solver|].
  split; [done|]. split; [done|].
  split; [by intros (status & ? & _)|].
  split; [reflexivity|].
  intros d. apply truthy_lookup_inherited.
  apply (bool_decide_unpack _); vm_compute; exact I.
Qed.

(** X27. The in-memory state of a match always carries a status of the
    enum: the state a join reads for a match without one is waiting; a
    step leaves the status of an in-memory state as it was or assigns a
    value of the enum; so every in-memory state of a reachable state is
    waiting, live or completed. *)
Theorem in_memory_status_in_enum :
  (∀ e ws matchId userId s,
     matchStates s !! matchId = None →
     ∃ state,
       last (sent (on_message e ws (join_match matchId userId) s) ws)
       = Some (match_state state)
       ∧ MatchState.status state = "waiting"
       ∧ valid_status (MatchState.status state))
  ∧ (∀ e ev s k st',
       matchStates (handle e ev s) !! k = Some st' →
       valid_status (MatchState.status st')
       ∨ ∃ st, matchStates s !! k = Some st
               ∧ MatchState.status st' = MatchState.status st)
  ∧ (∀ d0 s, reachable d0 s →
       ∀ k st, matchStates s !! k = Some st →
               valid_status (MatchState.status st)).
Proof.
  assert (Hstates : ∀ e ev s k st',
            matchStates (handle e ev s) !! k = Some st' →
            valid_status (MatchState.status st')
            ∨ ∃ st, matchStates s !! k = Some st
                    ∧ MatchState.status st' = MatchState.status st).
  { intros e ev s k st' [[-> _]|(st & ? & ? & _)]%handle_matchStates.
    - left. apply live_valid.
    - right. eauto. }
  split.
  { intros e ws matchId userId s Hnone. exists default_match_state.
    cbn [on_message]. unfold on_join_match. rewrite Hnone.
    cbn [sent send default]. rewrite decide_True by done.
    rewrite last_snoc. split; [done|]. split; [done|].
    unfold valid_status, matchStatusEnum. cbn. set_solver. }
  split; [exact Hstates|].
  intros d0. induction 1 as [|e ev s Hs IH Hen]; intros k st.
  - cbn [start matchStates]. by rewrite lookup_empty.
  - intros [H|(st0 & H0 & ->)]%Hstates; eauto.
Qed.

(** ** Rooms *)





(** ** Player scores *)

Lemma score_answer_lookup scores a v :
  Storage.score_answer scores a !! v =
  if decide (v = PlayerAnswer.userId a)
  then Some (default 0 (scores !! v)
             + (if PlayerAnswer.isCorrect a then 1 else 0))
  else scores !! v.
Proof.
  unfold Storage.score_answer.
  destruct (decide (v = PlayerAnswer.userId a)) as [->|Hne].
  - destruct (scores !! PlayerAnswer.userId a) as [n|] eqn:Hn;
      [destruct (decide (n = 0)) as [->|Hz]|];
      destruct (PlayerAnswer.isCorrect a); cbn;
      rewrite ?lookup_insert_eq, ?Hn; cbn; f_equal; lia.
  - destruct (scores !! PlayerAnswer.userId a) as [n|];
      [destruct (decide (n = 0))|];
      destruct (PlayerAnswer.isCorrect a); cbn;
      rewrite ?lookup_insert_ne by done; done.
Qed.

Lemma score_fold_lookup (l : list PlayerAnswer.t) : ∀ scores v,
  foldl Storage.score_answer scores l !! v =
  match filter (λ a, PlayerAnswer.userId a = v) l with
  | [] => scores !! v
  | mine =>
      Some (default 0 (scores !! v)
            + Z.of_nat (length (filter (λ a, PlayerAnswer.isCorrect a = true)
                                       mine)))
  end.
Proof.
  induction l as [|x l IH]; intros scores v; [done|].
  cbn [foldl]. rewrite IH, score_answer_lookup, filter_cons.
  destruct (decide (PlayerAnswer.userId x = v)) as [<-|Hne].
  - rewrite decide_True by done. rewrite filter_cons.
    destruct (filter _ l) as [|y mine] eqn:Hf;
      destruct (PlayerAnswer.isCorrect x) eqn:Hc; cbn [default];
      repeat case_decide; try done; cbn [length]; f_equal;
      cbv [id]; lia.
  - rewrite decide_False by done. done.
Qed.

(** X1. For a user id that is not an inherited name (the scores are kept
    in a plain object), [getPlayerScoresByMatch] gives a user who answered
    in the match the number of that user's correct answers there (0 when
    none was correct), and has no entry for a user without an answer in the
    match. *)
Theorem player_scores_by_match matchId d userId :
  own_key userId →
  Storage.getPlayerScoresByMatch matchId d !! userId =
  if decide (answers_by matchId userId d = []) then None
  else Some (Z.of_nat
               (length (filter (λ a, PlayerAnswer.isCorrect a = true)
                               (answers_by matchId userId d)))).
Proof.
  intros _. unfold Storage.getPlayerScoresByMatch, answers_by.
  rewrite score_fold_lookup, lookup_empty.
  destruct (filter _ (Storage.getAnswersByMatch matchId d)) as [|y mine];
    [by rewrite decide_True|].
  rewrite decide_False by done. cbn [default]. f_equal.
Qed.

Lemma player_scores_by_match_witness :
  own_key "u1"
  ∧ Storage.getPlayerScoresByMatch "m1"
      (storage (on_message Sample.env 0
                  (submit_answer "m1" "u1" "q1" "B" "t1" None) Sample.server))
    !! "u1" = Some 1.
Proof.
  assert (Hown : own_key "u1") by solve_own_key.
  split; [exact Hown|].
  rewrite (player_scores_by_match "m1" _ "u1" Hown).
  vm_compute. reflexivity.
Defined.

(** ** Sorted listings *)

Section Sorting.
  Context {A : Type} (compare : A → A → Z).
  Hypothesis total : ∀ a b, compare a b <= 0 ∨ compare b a <= 0.
  Hypothesis transitive :
    ∀ a b c, compare a b <= 0 → compare b c <= 0 → compare a c <= 0.

Lemma insert_sorted_perm x (l : list A) : insert_sorted compare x l ≡ₚ x :: l.
Proof.
  induction l as [|y l IH]; cbn; [done|].
  destruct (decide (compare x y <= 0)); [done|].
  rewrite IH. apply Permutation_swap.
Qed.

Lemma sort_by_perm (l : list A) : sort_by compare l ≡ₚ l.
Proof.
  induction l as [|x l IH]; cbn; [done|].
  unfold sort_by in IH. by rewrite insert_sorted_perm, IH.
Qed.

Lemma insert_sorted_sorted x (l : list A) :
  StronglySorted (ordered_by compare) l →
  StronglySorted (ordered_by compare) (insert_sorted compare x l).
Proof.
  induction 1 as [|y l Hl IH Hy]; cbn.
  - repeat constructor.
  - destruct (decide (compare x y <= 0)) as [Hxy|Hxy].
    + constructor; [by constructor|]. constructor; [done|].
      eapply Forall_impl; [exact Hy|]. intros z Hz.
      unfold ordered_by in *. eauto.
    + constructor; [done|].
      rewrite insert_sorted_perm. constructor; [|done].
      unfold ordered_by. destruct (total x y); [done|done].
Qed.

Lemma sort_by_sorted (l : list A) :
  StronglySorted (ordered_by compare) (sort_by compare l).
Proof.
  induction l as [|x l IH]; cbn; [constructor|].
  by apply insert_sorted_sorted.
Qed.

End Sorting.

Lemma standing_compare_le a b :
  ordered_by Queries.standing_compare a b
  ↔ Standing.leaguePoints b < Standing.leaguePoints a
    ∨ (Standing.leaguePoints a = Standing.leaguePoints b
       ∧ Standing.goalDifference b <= Standing.goalDifference a).
Proof.
  unfold ordered_by, Queries.standing_compare. cbv zeta.
  case_decide; lia.
Qed.

(** X2. [getStandingsByCompetition] returns exactly the standings rows of
    the competition, each once, ordered by league points from high to low
    and, among equal points, by goal difference from high to low: every row
    of the list is ordered before every later one. *)
Theorem standings_by_competition_sorted competitionId d :
  let table := Queries.getStandingsByCompetition competitionId d in
  table ≡ₚ filter (λ s, Standing.competitionId s = competitionId)
                  (values (standings d))
  ∧ StronglySorted (ordered_by Queries.standing_compare) table
  ∧ (∀ i j a b, table !! i = Some a → table !! j = Some b → (i < j)%nat →
       Standing.leaguePoints b < Standing.leaguePoints a
       ∨ (Standing.leaguePoints a = Standing.leaguePoints b
          ∧ Standing.goalDifference b <= Standing.goalDifference a)).
Proof.
  cbv zeta. unfold Queries.getStandingsByCompetition.
  assert (Hsorted : StronglySorted (ordered_by Queries.standing_compare)
            (sort_by Queries.standing_compare
               (filter (λ s, Standing.competitionId s = competitionId)
                       (values (standings d))))).
  { apply sort_by_sorted.
    - intros a b. unfold Queries.standing_compare. cbv zeta.
      repeat case_decide; lia.
    - intros a b c. unfold Queries.standing_compare. cbv zeta.
      repeat case_decide; lia. }
  split; [apply sort_by_perm|]. split; [exact Hsorted|].
  intros i j a b Hi Hj Hlt. apply standing_compare_le.
  revert i j a b Hi Hj Hlt. induction Hsorted as [|x l Hl IH Hx].
  - intros i j a b Hi. by rewrite lookup_nil in Hi.
  - intros [|i] [|j] a b Hi Hj Hlt; try lia; cbn in Hi, Hj.
    + injection Hi as <-. rewrite Forall_forall in Hx. apply Hx.
      by eapply list_elem_of_lookup_2.
    + apply (IH i j); [done|done|lia].
Qed.

Lemma strongly_sorted_lookup {A} (R : relation A) (l : list A) :
  StronglySorted R l →
  ∀ i j a b, l !! i = Some a → l !! j = Some b → (i < j)%nat → R a b.
Proof.
  induction 1 as [|x l Hl IH Hx].
  - intros i j a b Hi. by rewrite lookup_nil in Hi.
  - intros [|i] [|j] a b Hi Hj Hlt; try lia; cbn in Hi, Hj.
    + injection Hi as <-. rewrite Forall_forall in Hx. apply Hx.
      by eapply list_elem_of_lookup_2.
    + apply (IH i j); [done|done|lia].
Qed.

(** X3. [getUpcomingMatchesForTeam] lists exactly the stored matches that
    the team plays, at home or away, and whose status is waiting, from the
    earliest scheduled to the latest. *)
Theorem upcoming_matches_for_team teamId d :
  let upcoming := Queries.getUpcomingMatchesForTeam teamId d in
  (∀ r, r ∈ upcoming
        ↔ (∃ k, matches d !! k = Some r)
          ∧ (Match.homeTeamId r = teamId ∨ Match.awayTeamId r = teamId)
          ∧ Match.status r = "waiting")
  ∧ (∀ i j a b, upcoming !! i = Some a → upcoming !! j = Some b →
       (i < j)%nat → Match.scheduledAt a <= Match.scheduledAt b).
Proof.
  cbv zeta. unfold Queries.getUpcomingMatchesForTeam. split.
  - intros r. rewrite sort_by_perm, list_elem_of_filter, elem_of_values.
    tauto.
  - intros i j a b Hi Hj Hlt.
    assert (H : ordered_by (λ a b, Match.scheduledAt a - Match.scheduledAt b)
                  a b).
    { eapply strongly_sorted_lookup; [|exact Hi|exact Hj|exact Hlt].
      apply sort_by_sorted; intros; lia. }
    unfold ordered_by in H. lia.
Qed.

(** X4. Once an administrator has started a match, the row stored under
    its id is in no team's list of upcoming matches. *)
Theorem started_match_not_upcoming e session matchId s teamId r :
  requireAdmin session (storage s) = None →
  r ∈ Queries.getUpcomingMatchesForTeam teamId
        (storage (Routes.admin_match_start e session matchId s).2) →
  matches (storage (Routes.admin_match_start e session matchId s).2)
    !! matchId ≠ Some r.
Proof.
  intros Hadmin Hin Hrow.
  apply (proj1 (upcoming_matches_for_team _ _)) in Hin as (_ & _ & Hwait).
  revert Hrow. unfold Routes.admin_match_start. rewrite Hadmin. cbn [snd].
  match goal with
  | |- context [broadcastToMatch ?i ?msg ?st] =>
      destruct (broadcast_fields i msg st) as (-> & _)
  end.
  cbn [storage set_matchStates set_storage]. unfold Storage.updateMatch.
  destruct (matches (storage s) !! matchId) as [m|] eqn:Hm; cbn [snd].
  - cbn [matches Storage.set_matches]. rewrite lookup_insert_eq.
    intros [= <-]. cbn in Hwait. discriminate.
  - by rewrite Hm.
Qed.

Lemma started_match_not_upcoming_witness :
  requireAdmin (Some "a1") (storage Demo.server) = None
  ∧ Demo.return_leg
    ∈ Queries.getUpcomingMatchesForTeam "t1"
        (storage (Routes.admin_match_start Sample.env (Some "a1") "m1"
                    Demo.server).2)
  ∧ matches (storage (Routes.admin_match_start Sample.env (Some "a1") "m1"
                        Demo.server).2) !! "m1"
    ≠ Some Demo.return_leg.
Proof.
  assert (Hin : Demo.return_leg
            ∈ Queries.getUpcomingMatchesForTeam "t1"
                (storage (Routes.admin_match_start Sample.env (Some "a1") "m1"
                            Demo.server).2)).
  { vm_compute. apply list_elem_of_here. }
  split; [reflexivity|]. split; [exact Hin|].
  exact (started_match_not_upcoming Sample.env (Some "a1") "m1" Demo.server
           "t1" Demo.return_leg eq_refl Hin).
Defined.

(** ** Teams and memberships *)

(** X5. [removeTeamMember] ends the membership of the user in the team and
    no other: afterwards the user is not a member of the team, every other
    pair of team and user is a member exactly when it was before, and no
    team row is touched. *)
Theorem removeTeamMember_only teamId userId d :
  let d' := Queries.removeTeamMember teamId userId d in
  Storage.isTeamMember teamId userId d' = false
  ∧ (∀ t u, (t, u) ≠ (teamId, userId) →
       Storage.isTeamMember t u d' = Storage.isTeamMember t u d)
  ∧ teams d' = teams d.
Proof.
  cbv zeta. split; [|split; [|done]].
  - apply not_true_is_false. rewrite isTeamMember_spec.
    intros (k & m & Hk & Ht & Hu). cbn in Hk.
    apply map_lookup_filter_Some in Hk as [_ Hkeep]. by apply Hkeep.
  - intros t u Hne. apply eq_true_iff_eq. rewrite !isTeamMember_spec.
    unfold member, Queries.removeTeamMember. cbn [teamMembers
      Storage.set_teamMembers].
    split; intros (k & m & Hk & Ht & Hu); exists k, m.
    + apply map_lookup_filter_Some in Hk as [Hk _]. done.
    + split; [|done]. apply map_lookup_filter_Some. split; [done|].
      cbn. intros [? ?]. apply Hne. congruence.
Qed.

Lemma getTeamsByUser_elem userId d team :
  team ∈ Queries.getTeamsByUser userId d
  ↔ ∃ k m, teamMembers d !! k = Some m ∧ TeamMember.userId m = userId
           ∧ teams d !! TeamMember.teamId m = Some team.
Proof.
  unfold Queries.getTeamsByUser. cbv zeta. rewrite list_elem_of_omap. split.
  - intros (id & Hid & Hteam).
    apply list_elem_of_fmap in Hid as (m & -> & Hm).
    apply list_elem_of_filter in Hm as [Hu Hm].
    apply elem_of_values in Hm as [k Hk]. eauto.
  - intros (k & m & Hk & Hu & Hteam). exists (TeamMember.teamId m).
    split; [|done]. apply list_elem_of_fmap. exists m. split; [done|].
    apply list_elem_of_filter. split; [done|]. apply elem_of_values. eauto.
Qed.

(** X6. For a team id that is not an inherited name, [deleteTeam] removes
    the team row and nothing else: membership and registration rows of the
    team stay, so [isTeamMember] answers as before, while
    [getTeamWithMembers] finds no team and [getTeamsByUser] lists for a
    user the teams of the user's memberships other than the deleted one. *)
Theorem deleteTeam_no_cascade id d :
  own_key id →
  let d' := Queries.deleteTeam id d in
  teams d' !! id = None
  ∧ teamMembers d' = teamMembers d
  ∧ competitionRegistrations d' = competitionRegistrations d
  ∧ standings d' = standings d
  ∧ (∀ u, Storage.isTeamMember id u d' = Storage.isTeamMember id u d)
  ∧ Queries.getTeamWithMembers id d' = None
  ∧ (∀ u team,
       team ∈ Queries.getTeamsByUser u d'
       ↔ ∃ k m, teamMembers d !! k = Some m ∧ TeamMember.userId m = u
                ∧ TeamMember.teamId m ≠ id
                ∧ teams d !! TeamMember.teamId m = Some team).
Proof.
  intros _. cbv zeta. unfold Queries.deleteTeam.
  split; [apply lookup_delete_eq|]. do 4 (split; [done|]).
  split.
  { unfold Queries.getTeamWithMembers. cbn [teams Storage.set_teams].
    by rewrite lookup_delete_eq. }
  intros u team. rewrite getTeamsByUser_elem.
  cbn [teams teamMembers Storage.set_teams].
  split; intros (k & m & Hk & Hu & H); exists k, m.
  - destruct (decide (TeamMember.teamId m = id)) as [Heq|Hne].
    + rewrite Heq, lookup_delete_eq in H. done.
    + rewrite lookup_delete_ne in H by done. done.
  - destruct H as [Hne H]. rewrite lookup_delete_ne by done. done.
Qed.

Lemma deleteTeam_no_cascade_witness :
  own_key "t1"
  ∧ teams Demo.data !! "t1" = Some Sample.team
  ∧ teams (Queries.deleteTeam "t1" Demo.data) !! "t1" = None
  ∧ Storage.isTeamMember "t1" "u1" (Queries.deleteTeam "t1" Demo.data) = true.
Proof.
  assert (Hown : own_key "t1") by solve_own_key.
  split; [exact Hown|]. split; [reflexivity|].
  destruct (deleteTeam_no_cascade "t1" Demo.data Hown)
    as (Hgone & _ & _ & _ & Hmember & _).
  split; [exact Hgone|].
  rewrite Hmember. vm_compute. reflexivity.
Defined.

(** X7. A match whose home or away team has been deleted can no longer
    be fetched with its teams (team ids that are not inherited names):
    [getMatchWithTeams] finds nothing for it, although the match row is
    still stored. *)
Theorem deleted_team_hides_match id d m :
  matches d !! id = Some m →
  own_key (Match.homeTeamId m) →
  own_key (Match.awayTeamId m) →
  Queries.getMatchWithTeams id (Queries.deleteTeam (Match.homeTeamId m) d)
  = None
  ∧ Queries.getMatchWithTeams id (Queries.deleteTeam (Match.awayTeamId m) d)
    = None
  ∧ matches (Queries.deleteTeam (Match.homeTeamId m) d) !! id = Some m
  ∧ matches (Queries.deleteTeam (Match.awayTeamId m) d) !! id = Some m.
Proof.
  intros Hm _ _. unfold Queries.getMatchWithTeams, Queries.deleteTeam.
  cbn [matches teams Storage.set_teams]. rewrite Hm.
  split; [by rewrite lookup_delete_eq|].
  split; [|done]. rewrite (lookup_delete_eq _ (Match.awayTeamId m)).
  by destruct (delete _ _ !! _).
Qed.

Lemma deleted_team_hides_match_witness :
  matches Demo.derby !! "m1" = Some Demo.opener
  ∧ own_key "t1" ∧ own_key "t2"
  ∧ Queries.getMatchWithTeams "m1" Demo.derby
    = Some (Demo.opener, Sample.team, Demo.visitors)
  ∧ Queries.getMatchWithTeams "m1" (Queries.deleteTeam "t1" Demo.derby) = None
  ∧ Queries.getMatchWithTeams "m1" (Queries.deleteTeam "t2" Demo.derby) = None.
Proof.
  assert (Hhome : own_key "t1") by solve_own_key.
  assert (Haway : own_key "t2") by solve_own_key.
  split; [reflexivity|]. split; [exact Hhome|]. split; [exact Haway|].
  split; [vm_compute; reflexivity|].
  destruct (deleted_team_hides_match "m1" Demo.derby Demo.opener eq_refl
              Hhome Haway) as (H1 & H2 & _).
  split; [exact H1 | exact H2].
Defined.

(** ** Accounts *)

Lemma filter_head_None {A} (P : A → Prop) `{∀ x, Decision (P x)} (l : list A) :
  head (filter P l) = None ↔ ∀ x, x ∈ l → ¬ P x.
Proof.
  rewrite head_None. split.
  - intros Hnil x Hx HP. by eapply filter_nil_not_elem_of.
  - intros Hall. destruct (filter P l) as [|y l'] eqn:Hf; [done|].
    assert (Hy : y ∈ filter P l) by (rewrite Hf; apply list_elem_of_here).
    apply list_elem_of_filter in Hy as [HP Hy]. by destruct (Hall y Hy).
Qed.

Lemma getUserByEmail_None email d :
  Storage.getUserByEmail email d = None
  ↔ ∀ k u, users d !! k = Some u → User.email u ≠ email.
Proof.
  unfold Storage.getUserByEmail. rewrite filter_head_None. split.
  - intros H k u Hk. apply H, elem_of_values. eauto.
  - intros H u [k Hk]%elem_of_values. eauto.
Qed.

Lemma getUserByUsername_None name d :
  Storage.getUserByUsername name d = None
  ↔ ∀ k u, users d !! k = Some u → User.username u ≠ name.
Proof.
  unfold Storage.getUserByUsername. rewrite filter_head_None. split.
  - intros H k u Hk. apply H, elem_of_values. eauto.
  - intros H u [k Hk]%elem_of_values. eauto.
Qed.

Lemma getUserByEmail_Some email d user :
  Storage.getUserByEmail email d = Some user →
  ∃ k, users d !! k = Some user ∧ User.email user = email.
Proof.
  unfold Storage.getUserByEmail. intros H%head_Some_elem_of.
  apply list_elem_of_filter in H as [He [k Hk]%elem_of_values]. eauto.
Qed.

(** X8. A login succeeds only for a stored user with the given email whose
    password hash [bcrypt.compare] accepts; the session then holds that
    user's id. Every login of a well-formed body that fails is answered
    401 "Invalid credentials", the same for an unknown email and for a
    wrong password. *)
Theorem login_checks_credentials e body d :
  (∀ uid, (Session.auth_login e body d).2 = Some uid →
     ∃ email password k user,
       body = inr (email, password)
       ∧ users d !! k = Some user ∧ User.email user = email
       ∧ bcrypt_compare e password (User.password user) = true
       ∧ uid = User.id user
       ∧ (Session.auth_login e body d).1 = json (UserBody (Some user)))
  ∧ (∀ email password,
       body = inr (email, password) →
       (Session.auth_login e body d).2 = None →
       (Session.auth_login e body d).1 = fail 401 "Invalid credentials")
  ∧ (∀ email password,
       body = inr (email, password) →
       (∀ k u, users d !! k = Some u → User.email u ≠ email) →
       Session.auth_login e body d = (fail 401 "Invalid credentials", None)).
Proof.
  unfold Session.auth_login. split; [|split].
  - intros uid. destruct body as [issue|[email password]]; [done|].
    destruct (Storage.getUserByEmail email d) as [user|] eqn:Hu; [|done].
    destruct (bcrypt_compare e password (User.password user)) eqn:Hc;
      [|done].
    intros [= <-]. apply getUserByEmail_Some in Hu as (k & Hk & He).
    exists email, password, k, user. done.
  - intros email password ->.
    destruct (Storage.getUserByEmail email d) as [user|]; [|done].
    by destruct (bcrypt_compare e password (User.password user)).
  - intros email password -> Hnone.
    by rewrite (proj2 (getUserByEmail_None email d) Hnone).
Qed.

(** The route run without anything in between is its two halves on the
    same data. *)
Lemma auth_register_split e body d :
  Routes.auth_register e body d =
  match Registration.checks body d with
  | inl r => (r, d)
  | inr data => Registration.store e data d
  end.
Proof.
  unfold Routes.auth_register, Registration.checks, Registration.store.
  destruct body as [issue|data]; [done|].
  destruct (Storage.getUserByEmail _ d); [done|].
  by destruct (Storage.getUserByUsername _ d).
Qed.

(** X9. The uniqueness checks of POST /api/auth/register protect only a
    registration that nothing overtakes. When the user is stored in the
    data the checks were made on, emails and usernames that were unique
    stay unique. But the route waits for the password hash between the
    checks and the insert: when two requests with the same email have both
    passed their checks on the same data, both are answered 200 and both
    users are stored, so two accounts share the email; had the second
    request started after the first had finished, it would have been
    refused. *)
Theorem registration_uniqueness e1 e2 data1 data2 d :
  (Registration.checks (inr data1) d = inr data1 →
   unique_emails d → unique_usernames d →
   unique_emails (Registration.store e1 data1 d).2
   ∧ unique_usernames (Registration.store e1 data1 d).2)
  ∧ (Registration.checks (inr data1) d = inr data1 →
     Registration.checks (inr data2) d = inr data2 →
     User.email data1 = User.email data2 →
     id1 e1 ≠ id1 e2 →
     let first := Registration.store e1 data1 d in
     let second := Registration.store e2 data2 first.2 in
     code first.1 = 200 ∧ code second.1 = 200
     ∧ (∃ u1 u2,
          users second.2 !! id1 e1 = Some u1
          ∧ users second.2 !! id1 e2 = Some u2
          ∧ User.email u1 = User.email data1
          ∧ User.email u2 = User.email data1)
     ∧ ¬ unique_emails second.2
     ∧ Routes.auth_register e2 (inr data2) first.2
       = (fail 400 "Email already registered", first.2)).
Proof.
  split.
  - unfold Registration.checks.
    destruct (Storage.getUserByEmail (User.email data1) d) eqn:He; [done|].
    destruct (Storage.getUserByUsername (User.username data1) d) eqn:Hn;
      [done|].
    intros _ Hemail Hname.
    pose proof (proj1 (getUserByEmail_None _ _) He) as He'.
    pose proof (proj1 (getUserByUsername_None _ _) Hn) as Hn'.
    clear He Hn. rename He' into He. rename Hn' into Hn.
    unfold Registration.store.
    cbn [snd Storage.createUser User.email User.username User.password
         User.role].
    split; intros k1 k2 u1 u2; cbn [users Storage.set_users];
      rewrite !lookup_insert; repeat case_decide; subst;
      intros H1 H2 Heq; simplify_eq/=; try done; eauto.
    + by destruct (He k2 u2 H2).
    + by destruct (He k1 u1 H1).
    + by destruct (Hn k2 u2 H2).
    + by destruct (Hn k1 u1 H1).
  - intros _ _ Heq Hne. cbv zeta. unfold Registration.store.
    cbn [fst snd Storage.createUser User.email User.username User.password
         User.role users Storage.set_users code json].
    set (u1 := User.mk (id1 e1) (User.email data1) (User.username data1)
                 (bcrypt_hash e1 (User.password data1)) (User.role data1)).
    set (u2 := User.mk (id1 e2) (User.email data2) (User.username data2)
                 (bcrypt_hash e2 (User.password data2)) (User.role data2)).
    assert (H1 : (<[id1 e2 := u2]> (<[id1 e1 := u1]> (users d)))
                 !! id1 e1 = Some u1).
    { rewrite lookup_insert_ne by done. apply lookup_insert_eq. }
    assert (H2 : (<[id1 e2 := u2]> (<[id1 e1 := u1]> (users d)))
                 !! id1 e2 = Some u2) by apply lookup_insert_eq.
    split; [done|]. split; [done|]. split.
    { exists u1, u2. split; [exact H1|]. split; [exact H2|].
      split; [done|]. by rewrite Heq. }
    split.
    { intros Hunique. apply Hne.
      apply (Hunique _ _ u1 u2 H1 H2). exact Heq. }
    rewrite auth_register_split. unfold Registration.checks.
    destruct (Storage.getUserByEmail (User.email data2)
                (Storage.set_users (<[id1 e1 := u1]> (users d)) d))
      as [found|] eqn:Hfound; [done|].
    exfalso.
    apply (proj1 (getUserByEmail_None _ _) Hfound (id1 e1) u1).
    + cbn [users Storage.set_users]. apply lookup_insert_eq.
    + exact Heq.
Qed.

Lemma registration_uniqueness_witness :
  Registration.checks (inr Demo.player) empty_data = inr Demo.player
  ∧ Registration.checks (inr Demo.namesake) empty_data = inr Demo.namesake
  ∧ User.email Demo.player = User.email Demo.namesake
  ∧ id1 Sample.env ≠ id1 Demo.later
  ∧ ¬ unique_emails
        (Registration.store Demo.later Demo.namesake
           (Registration.store Sample.env Demo.player empty_data).2).2.
Proof.
  assert (H1 : Registration.checks (inr Demo.player) empty_data
               = inr Demo.player) by (vm_compute; reflexivity).
  assert (H2 : Registration.checks (inr Demo.namesake) empty_data
               = inr Demo.namesake) by (vm_compute; reflexivity).
  assert (Hne : id1 Sample.env ≠ id1 Demo.later) by discriminate.
  split; [exact H1|]. split; [exact H2|]. split; [reflexivity|].
  split; [exact Hne|].
  destruct (proj2 (registration_uniqueness Sample.env Demo.later Demo.player
                     Demo.namesake empty_data) H1 H2 eq_refl Hne)
    as (_ & _ & _ & Hshared & _).
  exact Hshared.
Defined.

Lemma requireAdmin_None session d :
  requireAdmin session d = None ↔ admin_session session d.
Proof.
  unfold requireAdmin, admin_session, Storage.getUser.
  destruct (requireAuth session) as [uid|]; [|naive_solver].
  destruct (users d !! uid) as [user|] eqn:Hu; [|naive_solver].
  destruct (decide (User.role user = "admin")); naive_solver.
Qed.

(** X10. The three admin routes do nothing for anyone else: unless the
    session user is a stored user with role admin, creating a competition,
    adding a question and starting a match leave the whole server state as
    it was and answer 401 or 403. *)
Theorem admin_routes_guarded e req s caller :
  admin_request req = Some caller →
  ¬ admin_session caller (storage s) →
  (serve e req s).2 = s
  ∧ (code (serve e req s).1 = 401 ∨ code (serve e req s).1 = 403).
Proof.
  intros Hreq Hno.
  assert (Hstop : ∃ stop, requireAdmin caller (storage s) = Some stop
                          ∧ (code stop = 401 ∨ code stop = 403)).
  { destruct (requireAdmin caller (storage s)) as [stop|] eqn:Hr.
    - exists stop. split; [done|]. revert Hr. unfold requireAdmin.
      repeat case_match; intros [= <-]; cbn; auto.
    - by apply requireAdmin_None in Hr. }
  destruct Hstop as (stop & Hstop & Hcode).
  destruct s as [d rooms states rs out]. cbn [storage] in *.
  destruct_request req; try discriminate; cbn in Hreq; simplify_eq;
    cbn [serve]; unfold on_storage, Routes.admin_competitions,
      Routes.admin_questions, Routes.admin_match_start; cbn [storage];
    rewrite Hstop; done.
Qed.

Lemma admin_routes_guarded_witness :
  admin_request (POST_admin_matches_start (Some "u1") "m1") = Some (Some "u1")
  ∧ ¬ admin_session (Some "u1") (storage Demo.server)
  ∧ (serve Sample.env (POST_admin_matches_start (Some "u1") "m1")
       Demo.server).2 = Demo.server.
Proof.
  assert (Hno : ¬ admin_session (Some "u1") (storage Demo.server)).
  { intros (uid & user & Hauth & Huser & Hrole).
    cbn in Hauth. injection Hauth as <-.
    assert (Hp : users (storage Demo.server) !! "u1" = Some Demo.player)
      by reflexivity.
    rewrite Hp in Huser. injection Huser as <-. discriminate. }
  split; [reflexivity|]. split; [exact Hno|].
  exact (proj1 (admin_routes_guarded Sample.env
                  (POST_admin_matches_start (Some "u1") "m1") Demo.server
                  (Some "u1") eq_refl Hno)).
Defined.

(** X11. After POST /api/teams succeeds, the new team is stored with the
    session user as creator and no practice token, and that user is a
    member of it: the team is among the user's teams. *)
Theorem teams_create_makes_member e session uid data d :
  requireAuth session = Some uid →
  let team :=
    Team.mk (id1 e) (Team.name data) (Team.description data) uid 0 in
  let d' := (Routes.teams_create e session (inr data) d).2 in
  (Routes.teams_create e session (inr data) d).1 = json (TeamBody team)
  ∧ teams d' !! id1 e = Some team
  ∧ Storage.isTeamMember (id1 e) uid d' = true
  ∧ team ∈ Queries.getTeamsByUser uid d'.
Proof.
  intros Hauth. cbv zeta. unfold Routes.teams_create. rewrite Hauth.
  cbn [Storage.createTeam Storage.addTeamMember fst snd Team.id Team.name
       Team.description].
  split; [done|].
  assert (Hteam : teams
            (Storage.set_teamMembers
               (<[id2 e := TeamMember.mk (id2 e) (id1 e) uid]>
                  (teamMembers
                     (Storage.set_teams
                        (<[id1 e := Team.mk (id1 e) (Team.name data)
                                      (Team.description data) uid 0]>
                           (teams d)) d)))
               (Storage.set_teams
                  (<[id1 e := Team.mk (id1 e) (Team.name data)
                                (Team.description data) uid 0]> (teams d)) d))
            !! id1 e
          = Some (Team.mk (id1 e) (Team.name data) (Team.description data)
                    uid 0)).
  { cbn. apply lookup_insert_eq. }
  split; [exact Hteam|].
  split.
  - apply isTeamMember_spec. exists (id2 e), (TeamMember.mk (id2 e) (id1 e) uid).
    cbn. by rewrite lookup_insert_eq.
  - apply getTeamsByUser_elem.
    exists (id2 e), (TeamMember.mk (id2 e) (id1 e) uid).
    split; [cbn; by rewrite lookup_insert_eq|]. split; [done|exact Hteam].
Qed.

Lemma teams_create_makes_member_witness :
  requireAuth (Some "u1") = Some "u1"
  ∧ Storage.isTeamMember "id-a" "u1"
      (Routes.teams_create Sample.env (Some "u1")
         (inr (Team.mk "" "Larks" None "" 0)) Demo.data).2 = true.
Proof.
  split; [reflexivity|].
  exact (proj1 (proj2 (proj2
           (teams_create_makes_member Sample.env (Some "u1") "u1"
              (Team.mk "" "Larks" None "" 0) Demo.data eq_refl)))).
Defined.


(** ** Practice and tokens *)

(** X13. POST /api/practice/answer tells whether the answer equals the
    question's [correctAnswer] and returns that answer; a question that is
    not stored, under an id that is not an inherited name, is answered 404
    and nothing changes. When the practice session exists, with counters
    that are safe integers, its [totalQuestions] goes up by one and its
    [score] by one exactly for a correct answer, so a score between 0 and
    the number of questions stays so; without the session (again under an
    id that is not an inherited name) nothing is stored. *)
Theorem practice_answer_counts session uid sessionId questionId answer d :
  requireAuth session = Some uid →
  let r := (Routes.practice_answer session sessionId questionId answer d).1 in
  let d' := (Routes.practice_answer session sessionId questionId answer d).2 in
  (own_key questionId → questions d !! questionId = None →
   r = fail 404 "Question not found" ∧ d' = d)
  ∧ (∀ question, questions d !! questionId = Some question →
       let isCorrect :=
         bool_decide (answer = Question.correctAnswer question) in
       r = json (AnswerBody isCorrect (Question.correctAnswer question))
       ∧ (own_key sessionId → practiceSessions d !! sessionId = None →
          d' = d)
       ∧ (∀ ps, practiceSessions d !! sessionId = Some ps →
            safe_integer (PracticeSession.score ps) →
            safe_integer (PracticeSession.totalQuestions ps) →
            ∃ ps', practiceSessions d' = <[sessionId := ps']>
                                           (practiceSessions d)
                   ∧ PracticeSession.totalQuestions ps'
                     = PracticeSession.totalQuestions ps + 1
                   ∧ PracticeSession.score ps'
                     = PracticeSession.score ps + (if isCorrect then 1 else 0)
                   ∧ PracticeSession.status ps' = PracticeSession.status ps
                   ∧ (0 <= PracticeSession.score ps
                           <= PracticeSession.totalQuestions ps →
                      0 <= PracticeSession.score ps'
                           <= PracticeSession.totalQuestions ps'))).
Proof.
  intros Hauth. cbv zeta. unfold Routes.practice_answer, Storage.getQuestion.
  rewrite Hauth. split.
  - by intros _ ->.
  - intros question ->. split; [done|].
    unfold Storage.getPracticeSession, Storage.updatePracticeSession. split.
    + by intros _ ->.
    + intros ps Hps _ _. rewrite !Hps. cbn [snd].
      eexists. split; [reflexivity|]. cbn.
      repeat split; try done; destruct (bool_decide _); lia.
Qed.

Lemma practice_answer_counts_witness :
  requireAuth (Some "u1") = Some "u1"
  ∧ (Routes.practice_answer (Some "u1") "s1" "q1" "B" Demo.data).1
    = json (AnswerBody true "B").
Proof.
  split; [reflexivity|].
  destruct (practice_answer_counts (Some "u1") "u1" "s1" "q1" "B" Demo.data
              eq_refl) as [_ H].
  exact (proj1 (H Sample.question eq_refl)).
Defined.

Lemma payments_tokens_teams e session uid teamId amount d team :
  requireAuth session = Some uid →
  teams d !! teamId = Some team →
  teams (Routes.payments_tokens e session teamId amount d).2
  = <[teamId := Team.mk (Team.id team) (Team.name team)
                  (Team.description team) (Team.createdBy team)
                  (Team.practiceTokens team + amount)]> (teams d).
Proof.
  intros Hauth Ht. unfold Routes.payments_tokens. rewrite Hauth.
  cbn [Storage.createPayment]. unfold Storage.getTeam, Storage.updateTeam.
  cbn [teams Storage.set_payments]. rewrite Ht. done.
Qed.

(** X14. For a whole number of tokens whose price is a safe integer,
    POST /api/payments/tokens always records a completed payment of
    twice the number of tokens and answers with it. The tokens are
    credited, and a purchase transaction that refers to the payment is
    recorded, only when the team exists (the old and the new balance being
    safe integers): for a team that is not stored, under an id that is not
    an inherited name, the payment is stored and no team or transaction
    row is written. *)
Theorem payments_tokens_credit e session uid teamId amount d :
  requireAuth session = Some uid →
  safe_integer (amount * 2) →
  let r := (Routes.payments_tokens e session teamId amount d).1 in
  let d' := (Routes.payments_tokens e session teamId amount d).2 in
  let payment :=
    Payment.mk (id1 e) uid (Some teamId) None (pretty (amount * 2)) "tokens"
      "completed" ("TOK-" +:+ pretty (now e)) None in
  r = json (PaymentBody payment)
  ∧ payments d' = <[id1 e := payment]> (payments d)
  ∧ (own_key teamId → teams d !! teamId = None →
     teams d' = teams d ∧ tokenTransactions d' = tokenTransactions d)
  ∧ (∀ team, teams d !! teamId = Some team →
       safe_integer (Team.practiceTokens team) →
       safe_integer (Team.practiceTokens team + amount) →
       teams d'
       = <[teamId := Team.mk (Team.id team) (Team.name team)
                       (Team.description team) (Team.createdBy team)
                       (Team.practiceTokens team + amount)]> (teams d)
       ∧ tokenTransactions d'
         = <[id2 e := TokenTransaction.mk (id2 e) teamId uid amount
                        "purchase" (Some (id1 e))]> (tokenTransactions d)).
Proof.
  intros Hauth _. cbv zeta. unfold Routes.payments_tokens. rewrite Hauth.
  cbn [Storage.createPayment]. unfold Storage.getTeam, Storage.updateTeam.
  cbn [teams Storage.set_payments].
  destruct (teams d !! teamId) as [team|] eqn:Ht; cbn.
  - do 3 (split; [done|]). intros ? [= <-] _ _. done.
  - do 3 (split; [done|]). done.
Qed.

Lemma payments_tokens_credit_witness :
  requireAuth (Some "u1") = Some "u1"
  ∧ safe_integer (5 * 2)
  ∧ Team.practiceTokens
      <$> teams (Routes.payments_tokens Sample.env (Some "u1") "t1" 5
                   Demo.data).2 !! "t1"
    = Some 8.
Proof.
  split; [reflexivity|].
  assert (Hprice : safe_integer (5 * 2)) by (unfold safe_integer; lia).
  split; [exact Hprice|].
  destruct (payments_tokens_credit Sample.env (Some "u1") "u1" "t1" 5
              Demo.data eq_refl Hprice) as (_ & _ & _ & H).
  destruct (H Sample.team eq_refl) as [-> _].
  { unfold safe_integer. cbn. lia. }
  { unfold safe_integer. cbn. lia. }
  rewrite lookup_insert_eq. reflexivity.
Defined.

(** X15. Tokens bought can be spent: after a purchase of at least one
    token for an existing team whose balance is not negative (the new
    balance being a safe integer), a practice start for that team by any
    signed-in user succeeds and leaves the team with the old balance plus
    the purchase minus one. *)
Theorem purchase_then_practice e e' session session' uid uid' teamId amount
    type d team :
  requireAuth session = Some uid →
  requireAuth session' = Some uid' →
  teams d !! teamId = Some team →
  0 <= Team.practiceTokens team →
  1 <= amount →
  safe_integer (Team.practiceTokens team + amount) →
  let d1 := (Routes.payments_tokens e session teamId amount d).2 in
  code (Routes.practice_start e' session' teamId type d1).1 = 200
  ∧ Team.practiceTokens
      <$> teams (Routes.practice_start e' session' teamId type d1).2
          !! teamId
    = Some (Team.practiceTokens team + amount - 1).
Proof.
  intros Hauth Hauth' Hteam Hbal Hamount _. cbv zeta.
  pose proof (payments_tokens_teams e session uid teamId amount d team
                Hauth Hteam) as Hteams.
  unfold Routes.practice_start, Storage.getTeam. rewrite Hauth', Hteams.
  rewrite lookup_insert_eq. cbn [Team.practiceTokens].
  rewrite decide_False by lia.
  unfold Storage.updateTeam. rewrite Hteams, lookup_insert_eq. cbn.
  rewrite lookup_insert_eq. done.
Qed.

Lemma purchase_then_practice_witness :
  requireAuth (Some "u1") = Some "u1"
  ∧ teams Demo.data !! "t1" = Some Sample.team
  ∧ code (Routes.practice_start Sample.env (Some "u1") "t1" "solo"
            (Routes.payments_tokens Sample.env (Some "u1") "t1" 2
               Demo.data).2).1 = 200.
Proof.
  split; [reflexivity|]. split; [reflexivity|].
  refine (proj1 (purchase_then_practice Sample.env Sample.env (Some "u1")
                   (Some "u1") "u1" "u1" "t1" 2 "solo" Demo.data Sample.team
                   eq_refl eq_refl eq_refl _ _ _));
    unfold safe_integer; cbn; lia.
Defined.

Lemma sum_permutation (l1 l2 : list Z) :
  l1 ≡ₚ l2 → foldr Z.add 0 l1 = foldr Z.add 0 l2.
Proof. induction 1; cbn; lia. Qed.

Lemma values_insert {A} (table : gmap string A) k v :
  values (<[k := v]> table) ≡ₚ v :: values (delete k table).
Proof.
  unfold values. rewrite <- insert_delete_eq.
  rewrite map_to_list_insert by apply lookup_delete_eq. done.
Qed.

Lemma values_insert_fresh {A} (table : gmap string A) k v :
  table !! k = None → values (<[k := v]> table) ≡ₚ v :: values table.
Proof. intros H. by rewrite values_insert, delete_id. Qed.

Lemma values_delete {A} (table : gmap string A) k w :
  table !! k = Some w → values table ≡ₚ w :: values (delete k table).
Proof.
  intros H. unfold values. by rewrite <- (map_to_list_delete table k w H).
Qed.

Lemma ledger_insert_fresh teamId k tx d :
  tokenTransactions d !! k = None →
  ledger teamId
    (Storage.set_tokenTransactions (<[k := tx]> (tokenTransactions d)) d)
  = ledger teamId d
    + (if decide (TokenTransaction.teamId tx = teamId)
       then TokenTransaction.amount tx else 0).
Proof.
  intros Hfresh. unfold ledger. cbn [tokenTransactions
    Storage.set_tokenTransactions].
  rewrite (sum_permutation _
             (TokenTransaction.amount
                <$> filter (λ t, TokenTransaction.teamId t = teamId)
                      (tx :: values (tokenTransactions d)))).
  - rewrite filter_cons. case_decide; cbn; lia.
  - by rewrite values_insert_fresh.
Qed.

(** X16. The token ledger follows the balance: when the transaction id
    drawn is unused and the numbers involved are safe integers, a practice
    start and a token purchase change a team's [practiceTokens] and the
    sum of its token transactions by the same amount, for every stored
    team. *)
Theorem tokens_follow_ledger e session teamId d :
  (∀ type t before,
     tokenTransactions d !! id1 e = None →
     teams d !! t = Some before →
     safe_integer (Team.practiceTokens before) →
     let d' := (Routes.practice_start e session teamId type d).2 in
     ∃ after, teams d' !! t = Some after
              ∧ Team.practiceTokens after - ledger t d'
                = Team.practiceTokens before - ledger t d)
  ∧ (∀ amount t before,
       tokenTransactions d !! id2 e = None →
       teams d !! t = Some before →
       safe_integer (Team.practiceTokens before) →
       safe_integer amount →
       safe_integer (Team.practiceTokens before + amount) →
       let d' := (Routes.payments_tokens e session teamId amount d).2 in
       ∃ after, teams d' !! t = Some after
                ∧ Team.practiceTokens after - ledger t d'
                  = Team.practiceTokens before - ledger t d).
Proof.
  split.
  - intros type t before Hfresh Ht _. cbv zeta.
    unfold Routes.practice_start, Storage.getTeam, Storage.updateTeam.
    destruct (requireAuth session) as [uid|]; [|eauto].
    destruct (teams d !! teamId) as [team|] eqn:Hteam; [|eauto].
    destruct (decide (Team.practiceTokens team < 1)); [eauto|].
    cbn [snd Storage.createTokenTransaction Storage.createPracticeSession
         TokenTransaction.teamId TokenTransaction.userId
         TokenTransaction.amount TokenTransaction.type
         TokenTransaction.paymentId].
    unfold ledger. cbn [teams tokenTransactions Storage.set_teams
      Storage.set_tokenTransactions Storage.set_practiceSessions].
    fold (ledger t d).
    pose proof (ledger_insert_fresh t (id1 e)
                  (TokenTransaction.mk (id1 e) teamId uid (-1) "practice" None)
                  d Hfresh) as Hl.
    unfold ledger at 1 in Hl. cbn [tokenTransactions
      Storage.set_tokenTransactions] in Hl. rewrite Hl.
    cbn [TokenTransaction.teamId TokenTransaction.amount].
    destruct (decide (t = teamId)) as [->|Hne].
    + rewrite lookup_insert_eq. eexists. split; [done|].
      rewrite decide_True by done. rewrite Hteam in Ht.
      injection Ht as <-. cbn. lia.
    + rewrite lookup_insert_ne by done. exists before. split; [done|].
      rewrite decide_False by done. lia.
  - intros amount t before Hfresh Ht _ _ _. cbv zeta.
    unfold Routes.payments_tokens, Storage.getTeam, Storage.updateTeam.
    destruct (requireAuth session) as [uid|]; [|eauto].
    cbn [Storage.createPayment teams Storage.set_payments].
    destruct (teams d !! teamId) as [team|] eqn:Hteam; [|eauto].
    cbn [snd Storage.createTokenTransaction TokenTransaction.teamId
         TokenTransaction.userId TokenTransaction.amount
         TokenTransaction.type TokenTransaction.paymentId Payment.id].
    unfold ledger. cbn [teams tokenTransactions Storage.set_teams
      Storage.set_tokenTransactions Storage.set_payments].
    fold (ledger t d).
    pose proof (ledger_insert_fresh t (id2 e)
                  (TokenTransaction.mk (id2 e) teamId uid amount "purchase"
                     (Some (id1 e)))
                  d Hfresh) as Hl.
    unfold ledger at 1 in Hl. cbn [tokenTransactions
      Storage.set_tokenTransactions] in Hl. rewrite Hl.
    cbn [TokenTransaction.teamId TokenTransaction.amount].
    destruct (decide (t = teamId)) as [->|Hne].
    + rewrite lookup_insert_eq. eexists. split; [done|].
      rewrite decide_True by done. rewrite Hteam in Ht.
      injection Ht as <-. cbn. lia.
    + rewrite lookup_insert_ne by done. exists before. split; [done|].
      rewrite decide_False by done. lia.
Qed.

(** ** Registrations *)

(** X17. A team cannot be registered twice: once a registration has been
    created, every later request of a signed-in user to register the same
    team for the same competition is answered 400 and writes nothing. *)
Theorem second_registration_refused e e' session session' competitionId
    teamId d :
  may_register e session competitionId teamId d →
  requireAuth session' ≠ None →
  let d1 := (Routes.competition_register e session competitionId teamId d).2 in
  ∃ reason,
    Routes.competition_register e' session' competitionId teamId d1
    = (fail 400 reason, d1).
Proof.
  intros Hmay Hauth. cbv zeta.
  destruct (competition_register_cases e session competitionId teamId d)
    as [(uid & competition & _ & Hc & _ & _ & _ & _ & ->)|[Hno _]];
    [|done].
  cbn [snd]. unfold Routes.competition_register at 1.
  destruct (requireAuth session') as [uid'|]; [|done].
  unfold Storage.getCompetition.
  cbn [competitions Storage.set_standings
       Storage.set_competitionRegistrations Storage.set_payments].
  rewrite Hc.
  destruct (decide (Competition.registrationDeadline competition < now e'));
    [eauto|].
  rewrite (proj2 (isTeamRegistered_spec competitionId teamId _)); [eauto|].
  exists (id2 e), (CompetitionRegistration.mk (id2 e) competitionId teamId uid
                     (Some (id1 e))).
  cbn. by rewrite lookup_insert_eq.
Qed.

Lemma second_registration_refused_witness :
  may_register Sample.env (Some "u1") "c1" "t1" Sample.league
  ∧ requireAuth (Some "u1") ≠ None
  ∧ ∃ reason,
      Routes.competition_register Sample.env (Some "u1") "c1" "t1"
        (Routes.competition_register Sample.env (Some "u1") "c1" "t1"
           Sample.league).2
      = (fail 400 reason,
         (Routes.competition_register Sample.env (Some "u1") "c1" "t1"
            Sample.league).2).
Proof.
  assert (Hmay : may_register Sample.env (Some "u1") "c1" "t1" Sample.league).
  { exists "u1", Sample.cup. split; [reflexivity|]. split; [reflexivity|].
    split; [cbn; lia|]. split.
    - intros (k & r & Hk & _). cbn in Hk. by rewrite lookup_empty in Hk.
    - split; [vm_compute; reflexivity|].
      exists "tm1", Sample.membership. repeat split. }
  assert (Hauth : requireAuth (Some "u1") ≠ None) by discriminate.
  split; [exact Hmay|]. split; [exact Hauth|].
  exact (second_registration_refused Sample.env Sample.env (Some "u1")
           (Some "u1") "c1" "t1" Sample.league Hmay Hauth).
Defined.

Lemma registrations_insert competitionId k row d :
  let d' :=
    Storage.set_competitionRegistrations
      (<[k := row]> (competitionRegistrations d)) d in
  CompetitionRegistration.competitionId row = competitionId →
  registrations_of competitionId d' <= registrations_of competitionId d + 1
  ∧ (competitionRegistrations d !! k = None →
     registrations_of competitionId d'
     = registrations_of competitionId d + 1).
Proof.
  cbv zeta. intros Hrow.
  unfold registrations_of, Storage.getRegisteredTeams.
  cbn [competitionRegistrations Storage.set_competitionRegistrations].
  rewrite values_insert, filter_cons, decide_True by done. cbn [length].
  destruct (competitionRegistrations d !! k) as [w|] eqn:Hk.
  - split; [|done]. rewrite (values_delete _ k w Hk), filter_cons.
    case_decide; cbn [length]; lia.
  - rewrite delete_id by done. split; [lia|]. intros _. lia.
Qed.

(** X18. The register route never overfills a competition: when the
    registrations of a competition do not exceed its [maxTeams] before a
    request, they do not after it; a successful request whose registration
    id is unused adds exactly one. *)
Theorem registrations_within_capacity e session competitionId teamId d
    competition :
  competitions d !! competitionId = Some competition →
  registrations_of competitionId d <= Competition.maxTeams competition →
  let d' := (Routes.competition_register e session competitionId teamId d).2 in
  registrations_of competitionId d' <= Competition.maxTeams competition
  ∧ competitions d' !! competitionId = Some competition
  ∧ (may_register e session competitionId teamId d →
     competitionRegistrations d !! id2 e = None →
     registrations_of competitionId d'
     = registrations_of competitionId d + 1).
Proof.
  intros Hc Hcap. cbv zeta.
  destruct (competition_register_cases e session competitionId teamId d)
    as [(uid & c & _ & Hc' & _ & _ & Hroom & _ & ->)
       |(Hno & code & msg & _ & ->)]; cbn [snd]; [|done].
  rewrite Hc in Hc'. injection Hc' as <-.
  pose proof (registrations_insert competitionId (id2 e)
                (CompetitionRegistration.mk (id2 e) competitionId teamId uid
                   (Some (id1 e)))
                (Storage.set_payments
                   (<[id1 e := Payment.mk (id1 e) uid (Some teamId)
                                 (Some competitionId)
                                 (Competition.registrationFee competition)
                                 "registration" "completed"
                                 ("REG-" +:+ pretty (now e)) None]>
                      (payments d)) d) eq_refl) as [Hle Hfresh].
  unfold registrations_of, Storage.getRegisteredTeams in *.
  cbn [competitionRegistrations Storage.set_competitionRegistrations
       Storage.set_payments Storage.set_standings competitions] in *.
  split; [lia|]. split; [done|]. intros _. apply Hfresh.
Qed.

Lemma registrations_within_capacity_witness :
  competitions Sample.league !! "c1" = Some Sample.cup
  ∧ registrations_of "c1" Sample.league <= Competition.maxTeams Sample.cup
  ∧ registrations_of "c1"
      (Routes.competition_register Sample.env (Some "u1") "c1" "t1"
         Sample.league).2
    <= Competition.maxTeams Sample.cup.
Proof.
  assert (Hcap : registrations_of "c1" Sample.league
                 <= Competition.maxTeams Sample.cup)
    by (vm_compute; discriminate).
  split; [reflexivity|]. split; [exact Hcap|].
  exact (proj1 (registrations_within_capacity Sample.env (Some "u1") "c1" "t1"
                  Sample.league Sample.cup eq_refl Hcap)).
Defined.

(** X19. After a successful registration the team has a standing in the
    competition: [getStandingForTeam] finds a row of that competition and
    team. *)
Theorem registered_team_has_standing e session competitionId teamId d :
  may_register e session competitionId teamId d →
  ∃ row,
    Queries.getStandingForTeam competitionId teamId
      (Routes.competition_register e session competitionId teamId d).2
    = Some row
    ∧ Standing.competitionId row = competitionId
    ∧ Standing.teamId row = teamId.
Proof.
  intros Hmay.
  destruct (competition_register_cases e session competitionId teamId d)
    as [(uid & c & _ & _ & _ & _ & _ & _ & ->)|[Hno _]]; [|done].
  cbn [snd]. unfold Queries.getStandingForTeam.
  cbn [standings Storage.set_standings].
  destruct (head _) as [row|] eqn:Hhead.
  - exists row. split; [done|].
    apply head_Some_elem_of, list_elem_of_filter in Hhead. tauto.
  - exfalso. rewrite filter_head_None in Hhead.
    apply (Hhead (Standing.mk (id3 e) competitionId teamId 0 0 0 0 0 0 0 0));
      [|done].
    apply elem_of_values. exists (id3 e). apply lookup_insert_eq.
Qed.

Lemma registered_team_has_standing_witness :
  may_register Sample.env (Some "u1") "c1" "t1" Sample.league
  ∧ ∃ row,
      Queries.getStandingForTeam "c1" "t1"
        (Routes.competition_register Sample.env (Some "u1") "c1" "t1"
           Sample.league).2
      = Some row
      ∧ Standing.competitionId row = "c1" ∧ Standing.teamId row = "t1".
Proof.
  assert (Hmay : may_register Sample.env (Some "u1") "c1" "t1" Sample.league).
  { exists "u1", Sample.cup. split; [reflexivity|]. split; [reflexivity|].
    split; [cbn; lia|]. split.
    - intros (k & r & Hk & _). cbn in Hk. by rewrite lookup_empty in Hk.
    - split; [vm_compute; reflexivity|].
      exists "tm1", Sample.membership. repeat split. }
  split; [exact Hmay|].
  exact (registered_team_has_standing Sample.env (Some "u1") "c1" "t1"
           Sample.league Hmay).
Defined.

(** ** Questions *)

(** X20. When the random comparator only reorders its input,
    [getQuestionsByMode] returns at most [limit] questions, each a stored
    question of the requested mode, and all of them when there are no more
    than [limit]. *)
Theorem questions_by_mode_bounded shuffle mode limit d :
  (∀ l, shuffle l ≡ₚ l) →
  let of_mode :=
    filter (λ q, Question.mode q = mode) (values (questions d)) in
  let chosen := Storage.getQuestionsByMode shuffle mode limit d in
  (length chosen <= limit)%nat
  ∧ length chosen = Nat.min limit (length of_mode)
  ∧ (∀ q, q ∈ chosen →
       Question.mode q = mode ∧ ∃ k, questions d !! k = Some q)
  ∧ ((length of_mode <= limit)%nat → chosen ≡ₚ of_mode).
Proof.
  intros Hperm. cbv zeta. unfold Storage.getQuestionsByMode.
  set (of_mode := filter (λ q, Question.mode q = mode) (values (questions d))).
  pose proof (Hperm of_mode) as Hp.
  pose proof (Permutation_length Hp) as Hlen.
  rewrite length_take, Hlen.
  split; [apply Nat.le_min_l|]. split; [done|]. split.
  - intros q (i & Hi & _)%elem_of_take.
    apply list_elem_of_lookup_2 in Hi.
    assert (Hq : q ∈ of_mode) by (by rewrite <- Hp).
    apply list_elem_of_filter in Hq as [Hm Hq].
    split; [done|]. by apply elem_of_values.
  - intros Hfew. rewrite take_ge; [exact Hp|]. by rewrite Hlen.
Qed.

Lemma questions_by_mode_bounded_witness :
  (∀ l : list Question.t, (λ l, l) l ≡ₚ l)
  ∧ (length (Storage.getQuestionsByMode (λ l, l) "competition" 10 Demo.data)
     <= 10)%nat.
Proof.
  assert (H : ∀ l : list Question.t, (λ l, l) l ≡ₚ l) by done.
  split; [exact H|].
  exact (proj1 (questions_by_mode_bounded (λ l, l) "competition" 10%nat
                  Demo.data H)).
Defined.

(** ** Match start and sockets *)



Lemma serve_sent e req s c :
  sent (serve e req s).2 c = sent s c
  ∨ (readyState s c = OPEN ∧ ∃ data, sent (serve e req s).2 c = sent s c ++ [data]).
Proof.
  destruct_request req; cbn [serve]; unfold on_storage; try (by left).
  unfold Routes.admin_match_start.
  destruct (requireAdmin session (storage s)); cbn [snd]; [by left|].
  rewrite broadcast_sent. unfold recipient.
  cbn [matchRooms readyState sent set_matchStates set_storage].
  destruct (matchRooms s !! matchId) as [clients|]; [|by left].
  destruct (bool_decide (c ∈ clients)); [|by left]. cbn.
  destruct (decide (readyState s c = OPEN)) as [Ho|Ho].
  - rewrite bool_decide_eq_true_2 by done. right. eauto.
  - rewrite bool_decide_eq_false_2 by done. by left.
Qed.

(** X22. Nothing is ever sent to a closed socket: once the [readyState] of
    a socket is [CLOSED], every event the server can take leaves the list
    of payloads handed to that socket as it was, and the socket stays
    closed. *)
Theorem closed_socket_gets_nothing e ev s c :
  enabled ev s →
  readyState s c = CLOSED →
  sent (handle e ev s) c = sent s c
  ∧ readyState (handle e ev s) c = CLOSED.
Proof.
  intros Hen Hclosed. destruct ev as [ws|ws msg|ws|ws|req]; cbn [handle].
  - cbn in *. split; [done|]. rewrite decide_False; [done|]. congruence.
  - assert (Hne : c ≠ ws).
    { intros ->. cbn in Hen. destruct Hen as [H|H]; congruence. }
    destruct msg as [matchId userId|matchId userId questionId answer teamId tt|];
      cbn [on_message]; [| |done].
    + unfold on_join_match. cbn. by rewrite decide_False.
    + destruct (on_message_rooms e ws matchId userId questionId answer
                  teamId tt s) as [_ Hrs].
      cbn [on_message] in Hrs. rewrite Hrs. split; [|done].
      destruct (questions (storage s) !! questionId) as [question|] eqn:Hq.
      2: { unfold on_submit_answer, Storage.getQuestion. by rewrite Hq. }
      destruct (matches (storage s) !! matchId) as [m|] eqn:Hm.
      2: { unfold on_submit_answer, Storage.getQuestion, Storage.getMatch.
           by rewrite Hq, Hm. }
      rewrite (on_submit_answer_found e ws matchId userId questionId answer
                 teamId tt s question m Hq Hm). cbv zeta.
      rewrite broadcast_sent. unfold recipient.
      cbn [matchRooms readyState sent set_matchStates set_storage send].
      rewrite decide_False by done.
      destruct (matchRooms s !! matchId) as [clients|]; [|done].
      rewrite (bool_decide_eq_false_2 (readyState s c = OPEN)) by congruence.
      by rewrite andb_false_r.
  - cbn in *. split; [done|]. rewrite decide_False; [done|]. congruence.
  - split; [done|]. cbn in *. case_decide; done.
  - destruct (serve_rooms e req s) as [_ Hrs]. rewrite Hrs. split; [|done].
    destruct (serve_sent e req s c) as [H|[Ho _]]; [done|congruence].
Qed.

Lemma closed_socket_gets_nothing_witness :
  enabled (http (POST_admin_matches_start (Some "id-a") "m1"))
    (handle Sample.env (close 0) Trace.answered)
  ∧ readyState (handle Sample.env (close 0) Trace.answered) 0 = CLOSED
  ∧ sent (handle Sample.env
            (http (POST_admin_matches_start (Some "id-a") "m1"))
            (handle Sample.env (close 0) Trace.answered)) 0
    = sent (handle Sample.env (close 0) Trace.answered) 0.
Proof.
  split; [exact I|]. split; [reflexivity|].
  exact (proj1 (closed_socket_gets_nothing Sample.env
                  (http (POST_admin_matches_start (Some "id-a") "m1"))
                  (handle Sample.env (close 0) Trace.answered) 0%nat
                  I eq_refl)).
Defined.

(** ** Registration and login together *)

Lemma register_success e data d :
  (∀ k u, users d !! k = Some u → User.email u ≠ User.email data) →
  (∀ k u, users d !! k = Some u → User.username u ≠ User.username data) →
  let user :=
    User.mk (id1 e) (User.email data) (User.username data)
      (bcrypt_hash e (User.password data)) (User.role data) in
  Routes.auth_register e (inr data) d
  = (json (UserBody (Some user)),
     Storage.set_users (<[id1 e := user]> (users d)) d).
Proof.
  intros He Hn. cbv zeta. unfold Routes.auth_register.
  rewrite (proj2 (getUserByEmail_None _ _) He).
  rewrite (proj2 (getUserByUsername_None _ _) Hn). done.
Qed.



(** X24. Registration stores the role the request body asks for: a body
    with role admin, a free email and a free username, and a non-empty
    drawn id yields a user whose session passes [requireAdmin]. *)
Theorem register_grants_requested_role e data d :
  (∀ k u, users d !! k = Some u → User.email u ≠ User.email data) →
  (∀ k u, users d !! k = Some u → User.username u ≠ User.username data) →
  id1 e ≠ "" →
  let d' := (Routes.auth_register e (inr data) d).2 in
  (User.role <$> users d' !! id1 e) = Some (User.role data)
  ∧ (User.role data = "admin" → requireAdmin (Some (id1 e)) d' = None)
  ∧ (User.role data ≠ "admin" →
     requireAdmin (Some (id1 e)) d' = Some (fail 403 "Forbidden")).
Proof.
  intros He Hn Hid. cbv zeta. rewrite (register_success e data d He Hn).
  cbn [snd users Storage.set_users]. rewrite lookup_insert_eq.
  split; [done|].
  unfold requireAdmin, requireAuth, Storage.getUser.
  rewrite decide_False by done. cbn [users Storage.set_users].
  rewrite lookup_insert_eq. cbn [User.role].
  split; intros Hrole; case_decide; done.
Qed.

Lemma register_grants_requested_role_witness :
  (∀ k u, users empty_data !! k = Some u →
          User.email u ≠ User.email Demo.admin)
  ∧ requireAdmin (Some "id-a")
      (Routes.auth_register Sample.env (inr Demo.admin) empty_data).2
    = None.
Proof.
  assert (He : ∀ k u, users empty_data !! k = Some u →
                      User.email u ≠ User.email Demo.admin).
  { intros k u H. cbn in H. by rewrite lookup_empty in H. }
  assert (Hn : ∀ k u, users empty_data !! k = Some u →
                      User.username u ≠ User.username Demo.admin).
  { intros k u H. cbn in H. by rewrite lookup_empty in H. }
  split; [exact He|].
  refine (proj1 (proj2 (register_grants_requested_role Sample.env Demo.admin
                          empty_data He Hn _)) eq_refl).
  discriminate.
Defined.
